(** * Shallow embedding of src/mastra/workflows/taskRefreshWorkflow.ts

    The file bundles the task-refresh workflow, the agent and the
    [emailTool] module.  This development models:
    - the Content Decoder [decodeEmailBody] and the Base64 decoding it uses,
    - the Eligibility Filter [isPromotionalEmail] and [getEmails],
    - the Task Extractor [extractTasksFromEmail],
    - the in-memory [taskStore] (a JS [Map]) with [markTaskComplete],
      [addTaskNote] and [getAllTasks],
    - the three workflow steps and the execution log.

    Gmail, the language model and the clock are external collaborators:
    they are the fields of an environment record [Env] that the run reads,
    each call consuming one entry of a call counter kept in the state.

    A JS string is represented by the bytes of its WTF-8 encoding (a Rocq
    [string]): UTF-8 for well-formed text, and a lone surrogate, which
    [substring] can leave at the end of a cut, as its three-byte
    generalized UTF-8 form.  [toLowerCase] is ASCII lower-casing, which
    agrees with JS on every keyword test of [isPromotionalEmail] since all
    keywords are ASCII. *)

From Stdlib Require Import String Ascii List Bool ZArith NArith Lia.
Import ListNotations.
Open Scope string_scope.
Set Warnings "-register-all".

(** ** JavaScript values *)

(** The values produced by [JSON.parse], plus [undefined].  JSON numbers
    are kept as integers: only their truthiness is ever inspected. *)
Inductive JVal : Type :=
| JUndef
| JNull
| JBool (b : bool)
| JNum (z : Z)
| JStr (s : string)
| JArr (l : list JVal)
| JObj (fields : list (string * JVal)).

(** JS truthiness. *)
Definition truthy (v : JVal) : bool :=
  match v with
  | JUndef | JNull => false
  | JBool b => b
  | JNum z => negb (Z.eqb z 0)
  | JStr s => negb (String.eqb s "")
  | JArr _ | JObj _ => true
  end.

(** [a || b] *)
Definition js_or (a b : JVal) : JVal := if truthy a then a else b.

(** Property read [v.k]: [None] is the [TypeError] raised on [null] and
    [undefined]; primitives and arrays have none of the keys read by the
    code; on an object parsed by [JSON.parse] the last binding of a
    duplicated key wins. *)
Definition get_prop (v : JVal) (k : string) : option JVal :=
  match v with
  | JUndef | JNull => None
  | JObj fs =>
      Some (match find (fun kv => String.eqb (fst kv) k) (rev fs) with
            | Some (_, x) => x
            | None => JUndef
            end)
  | _ => Some JUndef
  end.

(** ** String helpers *)

Fixpoint starts_with (p s : string) : bool :=
  match p, s with
  | EmptyString, _ => true
  | String a p', String b s' => Ascii.eqb a b && starts_with p' s'
  | String _ _, EmptyString => false
  end.

(** [s.includes(p)] *)
Fixpoint includes (s p : string) : bool :=
  starts_with p s ||
  match s with
  | EmptyString => false
  | String _ s' => includes s' p
  end.

Definition lower_ascii (c : ascii) : ascii :=
  let n := nat_of_ascii c in
  if (65 <=? n)%nat && (n <=? 90)%nat then ascii_of_nat (n + 32) else c.

(** [s.toLowerCase()] *)
Fixpoint toLowerCase (s : string) : string :=
  match s with
  | EmptyString => EmptyString
  | String c s' => String (lower_ascii c) (toLowerCase s')
  end.

(** Decimal rendering of a non-negative integer, as in a template literal. *)
Fixpoint digits_aux (fuel : nat) (n : N) (acc : string) : string :=
  match fuel with
  | O => acc
  | S f =>
      let d := ascii_of_nat (48 + N.to_nat (N.modulo n 10))%nat in
      let q := N.div n 10 in
      if N.eqb q 0 then String d acc else digits_aux f q (String d acc)
  end.

Definition show_N (n : N) : string := digits_aux (S (N.size_nat n)) n EmptyString.

(** ** Base64 ([Buffer.from(data, 'base64')])

    Node accepts both the standard and the URL-safe alphabet, skips
    characters outside them and stops at the first padding character. *)
Definition b64_value (c : ascii) : option N :=
  let n := N.of_nat (nat_of_ascii c) in
  if (65 <=? n)%N && (n <=? 90)%N then Some (n - 65)%N
  else if (97 <=? n)%N && (n <=? 122)%N then Some (n - 71)%N
  else if (48 <=? n)%N && (n <=? 57)%N then Some (n + 4)%N
  else if (n =? 43)%N || (n =? 45)%N then Some 62%N
  else if (n =? 47)%N || (n =? 95)%N then Some 63%N
  else None.

Fixpoint b64_sextets (s : string) : list N :=
  match s with
  | EmptyString => []
  | String c s' =>
      if Ascii.eqb c "="%char then []
      else match b64_value c with
           | Some v => v :: b64_sextets s'
           | None => b64_sextets s'
           end
  end.

Definition byte_char (n : N) : ascii := ascii_of_N (N.land n 255).

(** Four sextets give three bytes; a trailing group of two or three
    sextets gives one or two bytes; a lone trailing sextet gives none. *)
Fixpoint b64_bytes (l : list N) : string :=
  match l with
  | a :: b :: c :: d :: rest =>
      let w := (a * 262144 + b * 4096 + c * 64 + d)%N in
      String (byte_char (N.shiftr w 16))
        (String (byte_char (N.shiftr w 8))
           (String (byte_char w) (b64_bytes rest)))
  | [a; b; c] =>
      let w := (a * 4096 + b * 64 + c)%N in
      String (byte_char (N.shiftr w 10)) (String (byte_char (N.shiftr w 2)) EmptyString)
  | [a; b] =>
      String (byte_char (N.shiftr (a * 64 + b) 4)) EmptyString
  | _ => EmptyString
  end.

(** ** UTF-8 decoding ([buf.toString('utf-8')])

    The WHATWG UTF-8 decoder: every maximal ill-formed subsequence of the
    bytes becomes one U+FFFD (bytes EF BF BD); well-formed sequences are
    kept.  [U8Need k lo hi acc]: [k + 1] continuation bytes are still
    expected, the next one in [lo..hi]; [acc] holds the bytes read so far. *)
Inductive U8State := U8Idle | U8Need (k : nat) (lo hi : N) (acc : string).

Definition replacement_char : string :=
  String (byte_char 239) (String (byte_char 191) (String (byte_char 189) EmptyString)).

(** A byte read with no sequence pending. *)
Definition u8_start (c : ascii) : string * U8State :=
  let b := N_of_ascii c in
  if (b <? 128)%N then (String c EmptyString, U8Idle)
  else if (194 <=? b)%N && (b <=? 223)%N then
    (EmptyString, U8Need 0 128 191 (String c EmptyString))
  else if (224 <=? b)%N && (b <=? 239)%N then
    (EmptyString, U8Need 1 (if (b =? 224)%N then 160 else 128)%N
                           (if (b =? 237)%N then 159 else 191)%N (String c EmptyString))
  else if (240 <=? b)%N && (b <=? 244)%N then
    (EmptyString, U8Need 2 (if (b =? 240)%N then 144 else 128)%N
                           (if (b =? 244)%N then 143 else 191)%N (String c EmptyString))
  else (replacement_char, U8Idle).

Fixpoint utf8_decode (s : string) (st : U8State) : string :=
  match s with
  | EmptyString =>
      match st with U8Idle => EmptyString | U8Need _ _ _ _ => replacement_char end
  | String c s' =>
      match st with
      | U8Idle => let (out, st') := u8_start c in out ++ utf8_decode s' st'
      | U8Need k lo hi acc =>
          let b := N_of_ascii c in
          if (lo <=? b)%N && (b <=? hi)%N then
            match k with
            | O => (acc ++ String c EmptyString) ++ utf8_decode s' U8Idle
            | S k' => utf8_decode s' (U8Need k' 128 191 (acc ++ String c EmptyString))
            end
          else
            (* the pending sequence is ill-formed; the byte is read again *)
            let (out, st') := u8_start c in replacement_char ++ out ++ utf8_decode s' st'
      end
  end.

(** [Buffer.from(data, 'base64').toString('utf-8')] *)
Definition base64_decode (s : string) : string := utf8_decode (b64_bytes (b64_sextets s)) U8Idle.

(** ** [s.substring(0, n)] on the WTF-8 representation

    [substring] counts UTF-16 code units: a character of one to three
    UTF-8 bytes is one unit, a four-byte character (a surrogate pair) two.
    [lead_info c] gives, for a byte [c] that starts a character, its
    number of code units and of continuation bytes. *)
Definition lead_info (c : ascii) : nat * nat :=
  let b := N_of_ascii c in
  if (b <? 192)%N then (1, 0)
  else if (b <? 224)%N then (1, 1)
  else if (b <? 240)%N then (1, 2)
  else (2, 3).

(** The high surrogate of the four-byte character [c s], in WTF-8: what
    remains when a cut falls inside a surrogate pair. *)
Definition hi_surrogate (c : ascii) (s : string) : string :=
  match s with
  | String c1 (String c2 (String c3 _)) =>
      let cp := (N.land (N_of_ascii c) 7 * 262144 + N.land (N_of_ascii c1) 63 * 4096
                 + N.land (N_of_ascii c2) 63 * 64 + N.land (N_of_ascii c3) 63)%N in
      let h := (55296 + N.shiftr (cp - 65536) 10)%N in
      String (byte_char (224 + N.shiftr h 12))
        (String (byte_char (128 + N.land (N.shiftr h 6) 63))
           (String (byte_char (128 + N.land h 63)) EmptyString))
  | _ => EmptyString
  end.

(** The first [n] code units of [s]; [cont] continuation bytes of an
    admitted character are still to be copied. *)
Fixpoint utf16_prefix (n cont : nat) (s : string) : string :=
  match s with
  | EmptyString => EmptyString
  | String c s' =>
      match cont with
      | S k => String c (utf16_prefix n k s')
      | O =>
          let (u, k) := lead_info c in
          match n with
          | O => EmptyString
          | S n' =>
              if Nat.eqb u 1 then String c (utf16_prefix n' k s')
              else match n' with
                   | O => hi_surrogate c s'
                   | S n'' => String c (utf16_prefix n'' k s')
                   end
          end
      end
  end.

(** [s.substring(0, n)] *)
Definition substring0 (s : string) (n : nat) : string := utf16_prefix n 0 s.

(** ** Message payloads (Gmail [MessagePart] / [MessagePartBody])

    [decodeEmailBody] receives either a body ([data], [size]), a part
    ([mimeType], [body], [parts]) or the literal [{ parts }]; one object
    shape with optional fields covers all three. *)
Inductive MObj : Type :=
| mkMObj (mimeType : option string) (data : option string)
         (body : option MObj) (parts : option (list MObj)).

Definition is_text_mime (m : option string) : bool :=
  match m with
  | Some t => String.eqb t "text/plain" || String.eqb t "text/html"
  | None => false
  end.

Definition str_truthy (o : option string) : option string :=
  match o with
  | Some s => if String.eqb s "" then None else Some s
  | None => None
  end.

(** [dec skip o] is [decodeEmailBody(o)] when [skip] is false, and
    [decodeEmailBody({ parts: o.parts })] when [skip] is true (that literal
    has no [data] and the same [parts]). *)
Fixpoint dec (skip_data : bool) (o : MObj) : string :=
  match o with
  | mkMObj _ data _ parts =>
      match (if skip_data then None else str_truthy data) with
      | Some d => base64_decode d
      | None =>
          match parts with
          | Some ps =>
              (fix go (ps : list MObj) : string :=
                 match ps with
                 | [] => ""
                 | part :: rest =>
                     match part with
                     | mkMObj pm _ pb pp =>
                         if is_text_mime pm then
                           match pb with
                           | Some b => dec false b
                           | None => ""
                           end
                         else
                           match pp with
                           | Some _ =>
                               let decoded := dec true part in
                               if String.eqb decoded "" then go rest else decoded
                           | None => go rest
                           end
                     end
                 end) ps
          | None => ""
          end
      end
  end.

(** [decodeEmailBody(body)]; [None] is a falsy (absent) argument. *)
Definition decodeEmailBody (body : option MObj) : string :=
  match body with
  | None => ""
  | Some o => dec false o
  end.

(** ** Messages and the Eligibility Filter *)

Record Header := mkHeader { h_name : string; h_value : string }.

(** A Gmail message as returned by [messages.get] ([format: 'full']):
    its identifier and its optional [payload] (headers and part tree). *)
Record Payload := mkPayload { pl_headers : option (list Header); pl_part : MObj }.
Record RawMsg := mkRawMsg { rm_id : string; rm_payload : option Payload }.

(** The message record built by [getEmails]. *)
Record Email := mkEmail {
  e_id : string; e_subject : string; e_from : string; e_date : string; e_body : string }.

(** [headers.find(pred)?.value || dflt] *)
Definition header_value (pred : string -> bool) (hs : list Header) (dflt : string) : string :=
  match find (fun h => pred (h_name h)) hs with
  | Some h => if String.eqb (h_value h) "" then dflt else h_value h
  | None => dflt
  end.

Definition promotionalKeywords : list string :=
  ["unsubscribe"; "newsletter"; "promotion"; "sale"; "discount";
   "offer"; "deal"; "no-reply"; "noreply"; "automated"].

Definition isPromotionalEmail (headers : list Header) (body : string) : bool :=
  let fromHeader := header_value (fun n => String.eqb (toLowerCase n) "from") headers "" in
  let subjectHeader := header_value (fun n => String.eqb (toLowerCase n) "subject") headers "" in
  let contentToCheck := toLowerCase (fromHeader ++ subjectHeader ++ body) in
  existsb (fun keyword => includes contentToCheck keyword) promotionalKeywords.

(** [detail.data.payload?.headers || []] *)
Definition msg_headers (m : RawMsg) : list Header :=
  match rm_payload m with
  | Some pl => match pl_headers pl with Some hs => hs | None => [] end
  | None => []
  end.

(** [decodeEmailBody(detail.data.payload?.body || detail.data.payload)] *)
Definition msg_body (m : RawMsg) : string :=
  decodeEmailBody
    (match rm_payload m with
     | Some pl =>
         match pl_part pl with
         | mkMObj _ _ (Some b) _ => Some b
         | mkMObj _ _ None _ => Some (pl_part pl)
         end
     | None => None
     end).

(** The body of the [for] loop of [getEmails] for one message. *)
Definition email_of (m : RawMsg) : option Email :=
  let headers := msg_headers m in
  let subject := header_value (fun n => String.eqb n "Subject") headers "No Subject" in
  let from := header_value (fun n => String.eqb n "From") headers "Unknown" in
  let date := header_value (fun n => String.eqb n "Date") headers "" in
  let body := msg_body m in
  if isPromotionalEmail headers body then None
  else Some (mkEmail (rm_id m) subject from date (substring0 body 2000)).

Fixpoint collect_emails (ms : list RawMsg) : list Email :=
  match ms with
  | [] => []
  | m :: rest =>
      match email_of m with
      | Some e => e :: collect_emails rest
      | None => collect_emails rest
      end
  end.

(** ** Tasks and the task store *)

Inductive TaskStatus := Pending | Completed.

Record Task := mkTask {
  t_id : string;
  t_emailId : string;
  t_subject : string;
  t_description : JVal;
  t_sender : string;
  t_priority : JVal;
  t_dueDate : JVal;
  t_status : TaskStatus;
  t_notes : list JVal;
  t_createdAt : Z }.

(** [taskStore: Map<string, Task>] in insertion order. *)
Definition Store := list (string * Task).

(** [taskStore.get(k)] *)
Fixpoint map_get (k : string) (m : Store) : option Task :=
  match m with
  | [] => None
  | (k', v) :: rest => if String.eqb k k' then Some v else map_get k rest
  end.

(** [taskStore.set(k, v)]: an existing key keeps its position. *)
Fixpoint map_set (k : string) (v : Task) (m : Store) : Store :=
  match m with
  | [] => [(k, v)]
  | (k', v') :: rest =>
      if String.eqb k k' then (k', v) :: rest else (k', v') :: map_set k v rest
  end.

(** [Array.from(taskStore.values())] *)
Definition getAllTasks (m : Store) : list Task := map snd m.

Definition set_status (t : Task) (st : TaskStatus) : Task :=
  mkTask (t_id t) (t_emailId t) (t_subject t) (t_description t) (t_sender t)
    (t_priority t) (t_dueDate t) st (t_notes t) (t_createdAt t).

Definition push_note (t : Task) (note : string) : Task :=
  mkTask (t_id t) (t_emailId t) (t_subject t) (t_description t) (t_sender t)
    (t_priority t) (t_dueDate t) (t_status t) (t_notes t ++ [JStr note]) (t_createdAt t).

Definition markTaskComplete (taskId : string) (m : Store) : bool * Store :=
  match map_get taskId m with
  | Some task => (true, map_set taskId (set_status task Completed) m)
  | None => (false, m)
  end.

Definition addTaskNote (taskId : string) (note : string) (m : Store) : bool * Store :=
  match map_get taskId m with
  | Some task => (true, map_set taskId (push_note task note) m)
  | None => (false, m)
  end.

(** ** External collaborators and run state *)

(** What [generateText] followed by [JSON.parse] gives for one prompt:
    the model call rejects, or it answers text that [JSON.parse] either
    rejects ([None]) or turns into a value. *)
Inductive LlmOutcome :=
| LlmThrows
| LlmReply (parsed : option JVal).

Record Env := mkEnv {
  (** Gmail at its [k]-th use by [getEmails]: the unread inbox messages in
      listing order, or [None] when [messages.list]/[messages.get] throws. *)
  env_src : nat -> option (list RawMsg);
  (** the language model's answer for the prompt built from an email *)
  env_llm : Email -> LlmOutcome;
  (** [Date.now()] / [new Date()] at the [k]-th clock read, in ms *)
  env_now : nat -> Z;
  (** the tool invocation of [listTasks] in step 3 through the framework:
      [None] when it resolves, [Some msg] when it rejects with [Error(msg)];
      the in-repository [listTasks] itself always succeeds *)
  env_list_error : option string }.

Inductive LogStatus := LogSuccess | LogError.

Record WorkflowExecutionLog := mkLog {
  l_timestamp : Z;
  l_emailsChecked : nat;
  l_tasksExtracted : nat;
  l_status : LogStatus;
  l_error : option string }.

Record State := mkState {
  st_store : Store;                       (** [taskStore] *)
  st_logs : list WorkflowExecutionLog;    (** [executionLogs] *)
  st_fetch : nat;                         (** Gmail uses so far *)
  st_tick : nat }.                        (** clock reads so far *)

Inductive Result (A : Type) := Ok (a : A) | Err (msg : string).
Arguments Ok {A} a.
Arguments Err {A} msg.

(** Async code that may throw, threading the module state. *)
Definition M (A : Type) := State -> Result A * State.

Definition ret {A} (a : A) : M A := fun s => (Ok a, s).
Definition throw {A} (msg : string) : M A := fun s => (Err msg, s).
Definition bind {A B} (m : M A) (k : A -> M B) : M B :=
  fun s => match m s with
           | (Ok a, s') => k a s'
           | (Err e, s') => (Err e, s')
           end.
Notation "x <- m ;; k" := (bind m (fun x => k)) (at level 61, m at next level, right associativity).

Definition with_store (s : State) (m : Store) : State :=
  mkState m (st_logs s) (st_fetch s) (st_tick s).

Section Run.
Variable env : Env.

(** One clock read. *)
Definition now : M Z :=
  fun s => (Ok (env_now env (st_tick s)),
            mkState (st_store s) (st_logs s) (st_fetch s) (S (st_tick s))).

(** [getEmails(maxResults)] *)
Definition getEmails (maxResults : nat) : M (list Email) :=
  fun s =>
    let s' := mkState (st_store s) (st_logs s) (S (st_fetch s)) (st_tick s) in
    match env_src env (st_fetch s) with
    | Some msgs => (Ok (collect_emails (firstn maxResults msgs)), s')
    | None => (Err "Failed to fetch emails from Gmail", s')
    end.

(** The [try] block of [extractTasksFromEmail] up to the [noTask] test:
    [Some result] when a task is built, [None] when the function returns
    [null] (model error, parse error, [TypeError] on [null.noTask], or a
    truthy [noTask]). *)
Definition usable_result (o : LlmOutcome) : option JVal :=
  match o with
  | LlmThrows => None
  | LlmReply None => None
  | LlmReply (Some result) =>
      match get_prop result "noTask" with
      | None => None
      | Some nt => if truthy nt then None else Some result
      end
  end.

(** [result.k] on a value known not to be [null]/[undefined]. *)
Definition prop (v : JVal) (k : string) : JVal :=
  match get_prop v k with Some x => x | None => JUndef end.

(** [`${t}`] for an integer: a '-' sign for negative values, then the
    decimal digits (the plain decimal form JS uses for every integer in
    the range of [Date.now()], |t| <= 8.64e15). *)
Definition show_Z (t : Z) : string :=
  if (t <? 0)%Z then "-" ++ show_N (Z.to_N (- t)) else show_N (Z.to_N t).

(** [`task-${email.id}-${Date.now()}`] *)
Definition task_id (email : Email) (t : Z) : string :=
  "task-" ++ e_id email ++ "-" ++ show_Z t.

Definition build_task (email : Email) (result : JVal) (id_time created : Z) : Task :=
  mkTask (task_id email id_time) (e_id email) (e_subject email)
    (prop result "description") (e_from email)
    (js_or (prop result "priority") (JStr "medium"))
    (prop result "dueDate") Pending
    [js_or (prop result "context") (JStr "")]
    created.

(** [extractTasksFromEmail(email)]: never throws. *)
Definition extractTasksFromEmail (email : Email) : M (option Task) :=
  match usable_result (env_llm env email) with
  | None => ret None
  | Some result =>
      t1 <- now ;;
      t2 <- now ;;
      let task := build_task email result t1 t2 in
      fun s => (Ok (Some task), with_store s (map_set (t_id task) task (st_store s)))
  end.

(** The [for] loop of the [extractTasks] action. *)
Fixpoint extract_loop (emails : list Email) : M (list Task) :=
  match emails with
  | [] => ret []
  | email :: rest =>
      task <- extractTasksFromEmail email ;;
      tasks <- extract_loop rest ;;
      ret (match task with Some t => t :: tasks | None => tasks end)
  end.

(** [emailTool.execute] for [getEmails], [extractTasks] and [listTasks]. *)
Definition tool_getEmails (maxResults : nat) : M (list Email) := getEmails maxResults.

Definition tool_extractTasks (maxResults : nat) : M (list Task) :=
  emails <- getEmails maxResults ;;
  extract_loop emails.

Definition tool_listTasks : M (list Task) :=
  fun s => (Ok (getAllTasks (st_store s)), s).

(** The workflow context: each step's output is merged into it. *)
Record Ctx := mkCtx {
  c_emails : list Email; c_emailCount : nat; c_tasks : list Task; c_taskCount : nat }.

(** Step 1 *)
Definition fetchEmailsStep : M Ctx :=
  emails <- tool_getEmails 20 ;;
  ret (mkCtx emails (length emails) [] 0).

(** Step 2: reads only [emailCount] from the context. *)
Definition extractTasksStep (c : Ctx) : M Ctx :=
  tasks <- tool_extractTasks 20 ;;
  ret (mkCtx (c_emails c) (c_emailCount c) tasks (length tasks)).

Definition logExecution (l : WorkflowExecutionLog) : M unit :=
  fun s => (Ok tt, mkState (st_store s) ((st_logs s ++ [l])%list) (st_fetch s) (st_tick s)).

Record Summary := mkSummary { sm_totalTasks : nat; sm_newTasks : nat }.

(** Step 3, with the [listTasks] invocation going through the framework. *)
Definition updateTaskListStep (c : Ctx) : M Summary :=
  match env_list_error env with
  | None =>
      ts <- tool_listTasks ;;
      t <- now ;;
      _ <- logExecution (mkLog t (c_emailCount c) (c_taskCount c) LogSuccess None) ;;
      ret (mkSummary (length ts) (c_taskCount c))
  | Some msg =>
      t <- now ;;
      _ <- logExecution (mkLog t (c_emailCount c) 0 LogError (Some msg)) ;;
      throw msg
  end.

(** [taskRefreshWorkflow]: the steps in sequence; a throwing step fails
    the run and the later steps do not run. *)
Definition taskRefreshWorkflow : M Summary :=
  c1 <- fetchEmailsStep ;;
  c2 <- extractTasksStep c1 ;;
  updateTaskListStep c2.

End Run.

(** ** Concrete scenarios *)

Module Scenario.

(** A single-part plain-text message. *)
Definition text_msg (id from subject data : string) : RawMsg :=
  mkRawMsg id
    (Some (mkPayload
             (Some [mkHeader "From" from; mkHeader "Subject" subject;
                    mkHeader "Date" "Mon, 12 Oct 2026 09:00:00 +0000"])
             (mkMObj (Some "text/plain") None
                (Some (mkMObj None (Some data) None None)) None))).

(** promotional: "Big sale today" *)
Definition msgA : RawMsg :=
  text_msg "A" "Shop <news@shop.example>" "Weekly newsletter" "QmlnIHNhbGUgdG9kYXk=".
(** "Please review the contract by Friday." *)
Definition msgB : RawMsg :=
  text_msg "B" "Alice <alice@example.com>" "Contract review"
    "UGxlYXNlIHJldmlldyB0aGUgY29udHJhY3QgYnkgRnJpZGF5Lg==".
(** "Lunch notes attached." *)
Definition msgC : RawMsg :=
  text_msg "C" "Bob <bob@example.com>" "Lunch" "THVuY2ggbm90ZXMgYXR0YWNoZWQu".
(** "Send the budget figures." *)
Definition msgD : RawMsg :=
  text_msg "D" "Carol <carol@example.com>" "Budget" "U2VuZCB0aGUgYnVkZ2V0IGZpZ3VyZXMu".

Definition emailB : Email :=
  mkEmail "B" "Contract review" "Alice <alice@example.com>"
    "Mon, 12 Oct 2026 09:00:00 +0000" "Please review the contract by Friday.".
Definition emailC : Email :=
  mkEmail "C" "Lunch" "Bob <bob@example.com>"
    "Mon, 12 Oct 2026 09:00:00 +0000" "Lunch notes attached.".

Definition taskB_json : JVal :=
  JObj [("description", JStr "Review the contract");
        ("priority", JStr "high");
        ("dueDate", JStr "2026-10-16");
        ("context", JStr "Requested by Alice")].

Definition noTask_json : JVal := JObj [("noTask", JBool true)].

Definition clock (k : nat) : Z := (1760000000000 + Z.of_nat k)%Z.

Definition s0 : State := mkState [] [] 0 0.

(** Run example: an unchanged inbox A, B, C; B yields a task, C none. *)
Definition env_abc : Env :=
  mkEnv (fun _ => Some [msgA; msgB; msgC])
    (fun e => if String.eqb (e_id e) "B" then LlmReply (Some taskB_json)
              else LlmReply (Some noTask_json))
    clock None.

(** A message D arrives between the two fetches of one run. *)
Definition env_arrival : Env :=
  mkEnv (fun k => match k with O => Some [msgB] | S _ => Some [msgB; msgD] end)
    (fun _ => LlmReply (Some taskB_json)) clock None.

(** Gmail unreachable. *)
Definition env_down : Env :=
  mkEnv (fun _ => None) (fun _ => LlmReply (Some noTask_json)) clock None.


(** The model call rejects for every prompt. *)
Definition env_llm_down : Env :=
  mkEnv (fun _ => Some [msgB; msgC]) (fun _ => LlmThrows) clock None.


(** The [listTasks] invocation of step 3 rejects. *)
Definition env_persist_fail : Env :=
  mkEnv (fun _ => Some [msgA; msgB; msgC])
    (fun e => if String.eqb (e_id e) "B" then LlmReply (Some taskB_json)
              else LlmReply (Some noTask_json))
    clock (Some "listTasks invocation failed").

(** A store already holding the task extracted from B at [clock 0]. *)
Definition s_prior : State :=
  mkState [(task_id emailB (clock 0), build_task emailB taskB_json (clock 0) (clock 1))]
    [] 0 0.

(** Two [From] headers in different letter case. *)
Definition msg_two_from : RawMsg :=
  mkRawMsg "E"
    (Some (mkPayload
             (Some [mkHeader "FROM" "Dana <dana@example.com>";
                    mkHeader "From" "no-reply@example.com";
                    mkHeader "Subject" "Quarterly numbers"])
             (mkMObj (Some "text/plain") None
                (Some (mkMObj None (Some "UGxlYXNlIGNhbGwgbWUgYmFjay4=") None None)) None))).

(** A multipart body whose first text part carries no data
    (e.g. [{ size: 0 }]) and whose second part is HTML "hi". *)
Definition html_hi_body : MObj := mkMObj None (Some "aGk=") None None.
Definition multipart_empty_first : MObj :=
  mkMObj (Some "multipart/alternative") None None
    (Some [mkMObj (Some "text/plain") None (Some (mkMObj None None None None)) None;
           mkMObj (Some "text/html") None (Some html_hi_body) None]).

End Scenario.

(** ** Extraction outcomes *)

(** The answers for which [extractTasksFromEmail] returns [null]: the
    model call rejects, [JSON.parse] rejects, the parsed value is [null]
    ([null.noTask] throws), or [noTask] is truthy. *)
Definition extraction_failure (o : LlmOutcome) : Prop :=
  o = LlmThrows \/ o = LlmReply None \/ o = LlmReply (Some JNull) \/
  exists r nt, o = LlmReply (Some r) /\ get_prop r "noTask" = Some nt /\ truthy nt = true.

(** Whether the answer for [email] makes the extractor build a task. *)
Definition yields_task (env : Env) (email : Email) : bool :=
  match usable_result (env_llm env email) with Some _ => true | None => false end.

(** ** The task-management actions of [emailTool] *)

(** [case 'markComplete']: [!taskId] rejects a missing or empty id. *)
Definition tool_markComplete (taskId : option string) (m : Store) : (bool * string) * Store :=
  match str_truthy taskId with
  | None => ((false, "Task ID is required"), m)
  | Some id =>
      let (success, m') := markTaskComplete id m in
      ((success, if success then "Task marked as complete" else "Task not found"), m')
  end.

(** [case 'addNote']: [!taskId || !note] rejects a missing or empty id or
    note. *)
Definition tool_addNote (taskId note : option string) (m : Store) : (bool * string) * Store :=
  match str_truthy taskId, str_truthy note with
  | Some id, Some n =>
      let (success, m') := addTaskNote id n m in
      ((success, if success then "Note added to task" else "Task not found"), m')
  | _, _ => ((false, "Task ID and note are required"), m)
  end.

(** ** Auxiliary observers used in the statements *)

(** Every [data] string of a payload tree, in depth-first order. *)
Fixpoint all_data (o : MObj) : list string :=
  match o with
  | mkMObj _ d b ps =>
      app (match d with Some x => [x] | None => [] end)
        (app (match b with Some b' => all_data b' | None => [] end)
           (match ps with Some l => flat_map all_data l | None => [] end))
  end.

(** Whether every character of a string is a decimal digit. *)
Fixpoint all_digits (s : string) : bool :=
  match s with
  | EmptyString => true
  | String c s' => Nat.leb 48 (nat_of_ascii c) && Nat.leb (nat_of_ascii c) 57 && all_digits s'
  end.

(** Reading back a string of decimal digits onto an accumulator. *)
Fixpoint read_digits (s : string) (acc : N) : N :=
  match s with
  | EmptyString => acc
  | String c s' => read_digits s' (acc * 10 + (N.of_nat (nat_of_ascii c) - 48))
  end.

(** The length of a string in UTF-16 code units, i.e. its JS [length];
    [cont] continuation bytes of the current character are still to be
    skipped. *)
Fixpoint utf16_len (cont : nat) (s : string) : nat :=
  match s with
  | EmptyString => 0
  | String c s' =>
      match cont with
      | S k => utf16_len k s'
      | O => let (u, k) := lead_info c in u + utf16_len k s'
      end
  end.

(** [s.length] *)
Definition js_length (s : string) : nat := utf16_len 0 s.

(** * Properties *)

(** ** The task store *)

Lemma map_get_set_same (k : string) (v : Task) (m : Store) :
  map_get k (map_set k v m) = Some v.
Proof.
  induction m as [|[k' v'] rest IH]; simpl.
  - now rewrite String.eqb_refl.
  - destruct (String.eqb k k') eqn:E; simpl.
    + now rewrite E.
    + now rewrite E.
Qed.

Lemma map_get_set_other (k k' : string) (v : Task) (m : Store) :
  k <> k' -> map_get k (map_set k' v m) = map_get k m.
Proof.
  intros Hne. induction m as [|[k'' v''] rest IH]; simpl.
  - apply String.eqb_neq in Hne. now rewrite Hne.
  - destruct (String.eqb k' k'') eqn:E; simpl.
    + apply String.eqb_eq in E. subst k''.
      apply String.eqb_neq in Hne. now rewrite Hne.
    + destruct (String.eqb k k''); [reflexivity | exact IH].
Qed.

(** A key present stays present under [set]. *)
Lemma map_get_set_keeps (k k' : string) (v : Task) (m : Store) :
  map_get k m <> None -> map_get k (map_set k' v m) <> None.
Proof.
  intros H. destruct (String.eqb k k') eqn:E.
  - apply String.eqb_eq in E. subst. now rewrite map_get_set_same.
  - apply String.eqb_neq in E. now rewrite map_get_set_other.
Qed.

(** ** Strings *)

Lemma toLowerCase_app (a b : string) :
  toLowerCase (a ++ b) = toLowerCase a ++ toLowerCase b.
Proof. induction a as [|c a IH]; simpl; [reflexivity | now rewrite IH]. Qed.

Lemma starts_with_app (p a b : string) :
  starts_with p a = true -> starts_with p (a ++ b) = true.
Proof.
  revert a. induction p as [|c p IH]; intros [|c' a] H; simpl in *; try easy.
  apply andb_prop in H as [H1 H2]. rewrite H1. simpl. now apply IH.
Qed.

Lemma includes_app_l (a b p : string) :
  includes a p = true -> includes (a ++ b) p = true.
Proof.
  induction a as [|c a IH]; intros H; simpl in *.
  - destruct p; simpl in *; [destruct b; reflexivity | discriminate].
  - apply orb_prop in H as [H | H].
    + pose proof (starts_with_app _ _ b H) as H'. simpl in H'. now rewrite H'.
    + rewrite (IH H). apply orb_true_r.
Qed.

(** ** The run *)

Section RunFacts.
Variable env : Env.

Lemma extractTasksFromEmail_fetch (email : Email) (s : State) :
  st_fetch (snd (extractTasksFromEmail env email s)) = st_fetch s.
Proof.
  unfold extractTasksFromEmail.
  destruct (usable_result (env_llm env email)); reflexivity.
Qed.

Lemma extract_loop_ok (emails : list Email) (s : State) :
  exists ts s', extract_loop env emails s = (Ok ts, s') /\ st_fetch s' = st_fetch s.
Proof.
  revert s. induction emails as [|e rest IH]; intros s; simpl.
  - do 2 eexists. split; reflexivity.
  - unfold bind at 1. unfold extractTasksFromEmail at 1.
    destruct (usable_result (env_llm env e)) as [r|] eqn:Hu.
    + unfold bind, now, ret. simpl.
      match goal with |- context [extract_loop env rest ?s1] =>
        destruct (IH s1) as (ts & s' & Heq & Hf); rewrite Heq end.
      do 2 eexists. split; [reflexivity|]. rewrite Hf. reflexivity.
    + unfold ret. destruct (IH s) as (ts & s' & Heq & Hf).
      unfold bind. rewrite Heq. do 2 eexists. split; [reflexivity | exact Hf].
Qed.

End RunFacts.

Lemma collect_abc :
  collect_emails [Scenario.msgA; Scenario.msgB; Scenario.msgC]
  = [Scenario.emailB; Scenario.emailC].
Proof. vm_compute. reflexivity. Qed.

Lemma extract_loop_ids (env : Env) (emails : list Email) (s : State) :
  exists ts s', extract_loop env emails s = (Ok ts, s') /\
                map t_emailId ts = map e_id (filter (yields_task env) emails).
Proof.
  revert s. induction emails as [|e rest IH]; intros s.
  - do 2 eexists. split; reflexivity.
  - cbn [extract_loop]. unfold yields_task at 1. cbn [filter].
    unfold bind at 1, extractTasksFromEmail at 1.
    destruct (usable_result (env_llm env e)) as [r|] eqn:Hu.
    + unfold bind, now, ret. cbn.
      match goal with |- context [extract_loop env rest ?s1] =>
        destruct (IH s1) as (ts & s' & Heq & Hids); rewrite Heq end.
      do 2 eexists. split; [reflexivity |]. cbn. now rewrite Hids.
    + unfold ret. destruct (IH s) as (ts & s' & Heq & Hids).
      unfold bind. rewrite Heq. do 2 eexists. split; [reflexivity | exact Hids].
Qed.

Lemma extraction_failure_unusable (o : LlmOutcome) :
  extraction_failure o -> usable_result o = None.
Proof.
  intros [-> | [-> | [-> | (r & nt & -> & Hnt & Ht)]]]; try reflexivity.
  cbn. now rewrite Hnt, Ht.
Qed.

(** ** C1: the run example *)

(** Counterexample to C1: in the run over A (promotional), B (one task)
    and C (no task), the execution-log entry does not report
    [emailsChecked = 3]: the count is that of the eligible messages. *)
Lemma C1_emailsChecked_not_3 :
  ~ (exists l, In l (st_logs (snd (taskRefreshWorkflow Scenario.env_abc Scenario.s0)))
               /\ l_emailsChecked l = 3).
Proof.
  vm_compute. intros (l & [Hl | []] & H3). subst l. discriminate H3.
Qed.

(** C1 (amended): for a run over unread messages A (promotional),
    B (the model's answer yields a task, e.g. one high-priority task with
    a due date) and C (the model answers noTask, or any other answer that
    yields no task), with Gmail returning the same three messages to both
    fetches of the run and an empty store beforehand, the run succeeds
    with one new task, appends one log entry with emailsChecked = 2 (the
    eligible messages B and C), tasksExtracted = 1 and status success, and
    the store then holds exactly one task, linked to B. *)
Theorem C1_run_example (env : Env) (s : State) (a b c : RawMsg) (eb ec : Email) :
  env_src env (st_fetch s) = Some [a; b; c] ->
  env_src env (S (st_fetch s)) = Some [a; b; c] ->
  isPromotionalEmail (msg_headers a) (msg_body a) = true ->
  email_of b = Some eb ->
  email_of c = Some ec ->
  yields_task env eb = true ->
  extraction_failure (env_llm env ec) ->
  env_list_error env = None ->
  st_store s = [] ->
  exists sm s',
    taskRefreshWorkflow env s = (Ok sm, s') /\
    sm_newTasks sm = 1 /\
    (exists l, st_logs s' = (st_logs s ++ [l])%list /\ l_emailsChecked l = 2 /\
               l_tasksExtracted l = 1 /\ l_status l = LogSuccess) /\
    map t_emailId (getAllTasks (st_store s')) = [rm_id b].
Proof.
  intros H1 H2 Ha Hb Hc Hyb Hfc Hle Hst.
  assert (Ea : email_of a = None).
  { unfold email_of. cbv zeta. rewrite Ha. reflexivity. }
  assert (Eb : e_id eb = rm_id b).
  { unfold email_of in Hb. cbv zeta in Hb.
    destruct (isPromotionalEmail (msg_headers b) (msg_body b)); [discriminate Hb |]. injection Hb as <-. reflexivity. }
  apply extraction_failure_unusable in Hfc.
  unfold yields_task in Hyb.
  destruct (usable_result (env_llm env eb)) as [rb|] eqn:Hub; [| discriminate Hyb].
  destruct env as [src llm nw le]; destruct s as [st lg f tk]; simpl in *.
  subst st le.
  unfold taskRefreshWorkflow, fetchEmailsStep, extractTasksStep, tool_getEmails,
    tool_extractTasks, bind, getEmails; simpl.
  rewrite H1. cbn -[email_of]. rewrite Ea, Hb, Hc. rewrite H2.
  cbn -[email_of]. rewrite Ea, Hb, Hc.
  cbn [extract_loop]. unfold extractTasksFromEmail, bind, ret, now.
  cbn [env_llm]. rewrite Hub, Hfc. cbn.
  do 2 eexists. split; [reflexivity|]. simpl.
  split; [reflexivity|]. split; [| now rewrite Eb].
  eexists. repeat split.
Qed.

(** Witness for [C1_run_example] on [Scenario.env_abc]. *)
Lemma C1_run_example_witness :
  exists sm s',
    taskRefreshWorkflow Scenario.env_abc Scenario.s0 = (Ok sm, s') /\
    sm_newTasks sm = 1 /\
    (exists l, st_logs s' = (st_logs Scenario.s0 ++ [l])%list /\ l_emailsChecked l = 2 /\
               l_tasksExtracted l = 1 /\ l_status l = LogSuccess) /\
    map t_emailId (getAllTasks (st_store s')) = [rm_id Scenario.msgB].
Proof.
  apply (C1_run_example Scenario.env_abc Scenario.s0 Scenario.msgA Scenario.msgB Scenario.msgC
           Scenario.emailB Scenario.emailC); try (vm_compute; reflexivity).
  right; right; right. exists Scenario.noTask_json, (JBool true).
  split; [reflexivity | split; reflexivity].
Defined.

(** ** C2: what the extraction stage submits *)

(** Counterexample to C2: when a message D arrives between the two
    fetches of one run, step 1 carries forward only B, yet D is submitted
    to the extractor (a task linked to D ends up in the store) and Gmail
    is used twice. *)
Lemma C2_second_fetch_differs :
  match fst (fetchEmailsStep Scenario.env_arrival Scenario.s0) with
  | Ok c1 =>
      ~ In "D" (map e_id (c_emails c1)) /\
      In "D" (map t_emailId (getAllTasks
                (st_store (snd (taskRefreshWorkflow Scenario.env_arrival Scenario.s0))))) /\
      st_fetch (snd (taskRefreshWorkflow Scenario.env_arrival Scenario.s0)) = 2
  | Err _ => False
  end.
Proof.
  vm_compute. split; [intros [H | []]; discriminate H |].
  split; [right; left; reflexivity | reflexivity].
Qed.

(** What [extractTasksStep] does from any state: one Gmail call, then
    the extraction loop over the eligible messages of that listing. *)
Lemma extractTasksStep_eq (env : Env) (c : Ctx) (s : State) :
  extractTasksStep env c s =
    (let s' := mkState (st_store s) (st_logs s) (S (st_fetch s)) (st_tick s) in
     match env_src env (st_fetch s) with
     | Some msgs =>
         let (r, s2) := extract_loop env (collect_emails (firstn 20 msgs)) s' in
         (match r with
          | Ok ts => Ok (mkCtx (c_emails c) (c_emailCount c) ts (length ts))
          | Err e => Err e
          end, s2)
     | None => (Err "Failed to fetch emails from Gmail", s')
     end).
Proof.
  unfold extractTasksStep, tool_extractTasks, getEmails, bind, ret.
  destruct (env_src env (st_fetch s)); [| reflexivity].
  destruct (extract_loop _ _ _) as [[ts|e] s2]; reflexivity.
Qed.

(** C2 (amended): the extraction stage does not use the messages carried
    forward by step 1 (only their count); it uses Gmail a second time
    (same maximum of 20) and submits to the extractor, in order, the
    eligible messages of that second listing, whatever it is.  When Gmail
    returns the same listing to both fetches, these are exactly the
    messages carried forward by step 1. *)
Theorem C2_extraction_refetches (env : Env) (s s1 : State) (c1 : Ctx) :
  fetchEmailsStep env s = (Ok c1, s1) ->
  st_fetch s1 = S (st_fetch s) /\
  extractTasksStep env c1 s1 =
    (let s1' := mkState (st_store s1) (st_logs s1) (S (st_fetch s1)) (st_tick s1) in
     match env_src env (st_fetch s1) with
     | Some msgs =>
         let (r, s2) := extract_loop env (collect_emails (firstn 20 msgs)) s1' in
         (match r with
          | Ok ts => Ok (mkCtx (c_emails c1) (c_emailCount c1) ts (length ts))
          | Err e => Err e
          end, s2)
     | None => (Err "Failed to fetch emails from Gmail", s1')
     end) /\
  st_fetch (snd (extractTasksStep env c1 s1)) = S (S (st_fetch s)) /\
  (env_src env (st_fetch s1) = env_src env (st_fetch s) ->
   extractTasksStep env c1 s1 =
     (let (r, s2) := extract_loop env (c_emails c1)
                       (mkState (st_store s1) (st_logs s1) (S (st_fetch s1)) (st_tick s1)) in
      (match r with
       | Ok ts => Ok (mkCtx (c_emails c1) (c_emailCount c1) ts (length ts))
       | Err e => Err e
       end, s2))).
Proof.
  intros H.
  unfold fetchEmailsStep, tool_getEmails, getEmails, bind, ret in H.
  destruct (env_src env (st_fetch s)) as [msgs|] eqn:Hsrc; [| discriminate H].
  injection H as <- <-. cbn [st_fetch st_store st_logs st_tick c_emails c_emailCount].
  split; [reflexivity |].
  split; [apply extractTasksStep_eq |].
  rewrite extractTasksStep_eq. cbn [st_fetch st_store st_logs st_tick c_emails c_emailCount].
  split.
  - destruct (env_src env (S (st_fetch s))) as [msgs2|]; [| reflexivity].
    destruct (extract_loop_ok env (collect_emails (firstn 20 msgs2))
                (mkState (st_store s) (st_logs s) (S (S (st_fetch s))) (st_tick s)))
      as (ts & s' & Heq & Hf).
    cbv zeta. rewrite Heq. exact Hf.
  - intros Hst. rewrite Hst. reflexivity.
Qed.

(** Witness for [C2_extraction_refetches] when message D arrives between
    the two fetches: step 1 carries forward only B, step 2 runs over the
    second listing B, D. *)
Lemma C2_extraction_refetches_witness :
  exists c1 s1,
    fetchEmailsStep Scenario.env_arrival Scenario.s0 = (Ok c1, s1) /\
    map e_id (c_emails c1) = ["B"] /\
    st_fetch s1 = 1 /\
    extractTasksStep Scenario.env_arrival c1 s1 =
      (let s1' := mkState (st_store s1) (st_logs s1) (S (st_fetch s1)) (st_tick s1) in
       match env_src Scenario.env_arrival (st_fetch s1) with
       | Some msgs =>
           let (r, s2) := extract_loop Scenario.env_arrival (collect_emails (firstn 20 msgs)) s1' in
           (match r with
            | Ok ts => Ok (mkCtx (c_emails c1) (c_emailCount c1) ts (length ts))
            | Err e => Err e
            end, s2)
       | None => (Err "Failed to fetch emails from Gmail", s1')
       end).
Proof.
  destruct (fetchEmailsStep Scenario.env_arrival Scenario.s0) as [[c1|e] s1] eqn:H;
    [| vm_compute in H; discriminate H].
  exists c1, s1. split; [reflexivity |].
  destruct (C2_extraction_refetches Scenario.env_arrival Scenario.s0 s1 c1 H)
    as (F & Eq & _).
  split; [vm_compute in H; injection H as <- <-; reflexivity |].
  split; [exact F | exact Eq].
Defined.

(** ** C3: a failing Gmail call *)

(** Counterexample to C3: when Gmail throws in step 1, no execution-log
    entry (with status error or otherwise) is appended for the run. *)
Lemma C3_no_error_log_entry :
  ~ exists l, In l (st_logs (snd (taskRefreshWorkflow Scenario.env_down Scenario.s0)))
              /\ l_status l = LogError.
Proof. vm_compute. intros (l & [] & _). Qed.

(** C3 (amended): if Gmail throws during step 1, the run fails with the
    error "Failed to fetch emails from Gmail" propagated to its caller;
    the later steps do not run, so no execution-log entry is appended,
    and the task store is unchanged (zero tasks inserted or counted). *)
Theorem C3_fetch_failure (env : Env) (s : State) :
  env_src env (st_fetch s) = None ->
  taskRefreshWorkflow env s =
    (Err "Failed to fetch emails from Gmail",
     mkState (st_store s) (st_logs s) (S (st_fetch s)) (st_tick s)).
Proof.
  intros H. unfold taskRefreshWorkflow, fetchEmailsStep, tool_getEmails, getEmails, bind.
  rewrite H. reflexivity.
Qed.

(** Witness for [C3_fetch_failure] with Gmail unreachable. *)
Lemma C3_fetch_failure_witness :
  env_src Scenario.env_down (st_fetch Scenario.s0) = None /\
  taskRefreshWorkflow Scenario.env_down Scenario.s0 =
    (Err "Failed to fetch emails from Gmail", mkState [] [] 1 0).
Proof.
  split; [reflexivity |].
  apply (C3_fetch_failure Scenario.env_down Scenario.s0). reflexivity.
Defined.

(** ** C4: the Content Decoder *)

(** C4 (code_bug): for a multipart body whose first part is text/plain
    with no data and whose second part is text/html "hi", the decoder
    returns the empty string: the text-part branch returns the (empty)
    decoding of the first text part at once, whereas the nested-part
    branch goes on to later parts when the result is empty. *)
Theorem C4_empty_text_part_hides_html :
  decodeEmailBody (Some Scenario.multipart_empty_first) = "" /\
  decodeEmailBody (Some Scenario.html_hi_body) = "hi".
Proof. split; vm_compute; reflexivity. Qed.

(** ** C5: the Eligibility Filter *)

(** Counterexample to C5: a message with a header ["FROM"] before its
    header ["From": "no-reply@example.com"] is not classified promotional
    (the filter reads the first header named "from" in any case), and
    [getEmails] passes it on with sender "no-reply@example.com" (it reads
    the first header named exactly "From"). *)
Lemma C5_no_reply_sender_passed :
  existsb (fun e => includes (e_from e) "no-reply")
    (collect_emails [Scenario.msg_two_from]) = true.
Proof. vm_compute. reflexivity. Qed.

(** C5 (amended): a message is dropped by [getEmails] iff the lower-cased
    concatenation of its first header named "from" (any letter case), its
    first header named "subject" (any letter case) and its decoded body
    contains one of the ten keywords.  In particular a message passed on
    to the extractor never has a sender containing "no-reply" (in any
    letter case) when its first header named "from" in any case is its
    first header named exactly "From", as with a single From header. *)
Theorem C5_filter (m : RawMsg) :
  (email_of m = None <->
   exists kw, In kw promotionalKeywords /\
     includes
       (toLowerCase
          (header_value (fun n => String.eqb (toLowerCase n) "from") (msg_headers m) "" ++
           header_value (fun n => String.eqb (toLowerCase n) "subject") (msg_headers m) "" ++
           msg_body m)) kw = true) /\
  (forall e, email_of m = Some e ->
     find (fun h => String.eqb (toLowerCase (h_name h)) "from") (msg_headers m) =
     find (fun h => String.eqb (h_name h) "From") (msg_headers m) ->
     includes (toLowerCase (e_from e)) "no-reply" = false).
Proof.
  unfold email_of. split.
  - destruct (isPromotionalEmail (msg_headers m) (msg_body m)) eqn:Hp;
      unfold isPromotionalEmail in Hp.
    + apply existsb_exists in Hp. split; [intros _; exact Hp | reflexivity].
    + split; [discriminate |].
      intros (kw & Hin & Hkw).
      assert (Hex : existsb
                (fun keyword =>
                   includes
                     (toLowerCase
                        (header_value (fun n => String.eqb (toLowerCase n) "from") (msg_headers m) "" ++
                         header_value (fun n => String.eqb (toLowerCase n) "subject") (msg_headers m) "" ++
                         msg_body m)) keyword) promotionalKeywords = true)
        by (apply existsb_exists; eauto).
      rewrite Hex in Hp. discriminate.
  - intros e He Hfind.
    destruct (isPromotionalEmail (msg_headers m) (msg_body m)) eqn:Hp; [discriminate |].
    injection He as <-. cbn [e_from].
    unfold header_value at 1. rewrite <- Hfind.
    destruct (find (fun h => String.eqb (toLowerCase (h_name h)) "from") (msg_headers m))
      as [h|] eqn:Hh; [| reflexivity].
    destruct (String.eqb (h_value h) "") eqn:Hv; [reflexivity |].
    unfold isPromotionalEmail, header_value in Hp. rewrite Hh, Hv in Hp.
    rewrite toLowerCase_app in Hp.
    destruct (includes (toLowerCase (h_value h)) "no-reply") eqn:Hnr; [| reflexivity].
    apply (includes_app_l _ (toLowerCase
             (header_value (fun n => String.eqb (toLowerCase n) "subject") (msg_headers m) "" ++
              msg_body m))) in Hnr.
    assert (Hin : In "no-reply" promotionalKeywords) by (simpl; tauto).
    assert (Hex : existsb
              (fun keyword =>
                 includes
                   (toLowerCase (h_value h) ++
                    toLowerCase
                      (header_value (fun n => String.eqb (toLowerCase n) "subject") (msg_headers m) "" ++
                       msg_body m)) keyword) promotionalKeywords = true)
      by (apply existsb_exists; eauto).
    unfold header_value in Hex. rewrite Hex in Hp. discriminate.
Qed.

(** Witness for [C5_filter] on message B. *)
Lemma C5_filter_witness :
  email_of Scenario.msgB = Some Scenario.emailB /\
  find (fun h => String.eqb (toLowerCase (h_name h)) "from") (msg_headers Scenario.msgB) =
  find (fun h => String.eqb (h_name h) "From") (msg_headers Scenario.msgB) /\
  includes (toLowerCase (e_from Scenario.emailB)) "no-reply" = false.
Proof.
  assert (He : email_of Scenario.msgB = Some Scenario.emailB) by (vm_compute; reflexivity).
  assert (Hf : find (fun h => String.eqb (toLowerCase (h_name h)) "from") (msg_headers Scenario.msgB) =
               find (fun h => String.eqb (h_name h) "From") (msg_headers Scenario.msgB))
    by (vm_compute; reflexivity).
  split; [exact He | split; [exact Hf |]].
  exact (proj2 (C5_filter Scenario.msgB) Scenario.emailB He Hf).
Defined.

(** ** C6: construction of a task *)

(** Counterexample to C6: with the store already holding the task
    extracted from B when the clock read the same millisecond (a second
    run over the still-unread B, e.g. a manual trigger during the hourly
    run), the new identifier is already present in the store, and the
    insertion replaces the existing task instead of adding one. *)
Lemma C6_id_not_fresh :
  match extractTasksFromEmail Scenario.env_abc Scenario.emailB Scenario.s_prior with
  | (Ok (Some t), s') =>
      map_get (t_id t) (st_store Scenario.s_prior) <> None /\
      length (st_store s') = length (st_store Scenario.s_prior)
  | _ => False
  end.
Proof. vm_compute. split; [discriminate | reflexivity]. Qed.

(** C6 (amended): every task built by the extractor has status pending;
    priority [result.priority || 'medium'] (so "medium" when the answer
    has none); notes the one-element sequence [result.context || ''] (so
    [""] when the answer has no context); the source message's identifier;
    and the identifier "task-" ++ message id ++ "-" ++ the clock reading in
    ms, which is not checked against the store.  The task is written into
    the store (replacing any entry with that identifier) before it is
    returned. *)
Theorem C6_task_construction (env : Env) (email : Email) (s : State) (result : JVal) :
  usable_result (env_llm env email) = Some result ->
  exists t s',
    extractTasksFromEmail env email s = (Ok (Some t), s') /\
    t_status t = Pending /\
    t_priority t = js_or (prop result "priority") (JStr "medium") /\
    (prop result "priority" = JUndef -> t_priority t = JStr "medium") /\
    t_notes t = [js_or (prop result "context") (JStr "")] /\
    (prop result "context" = JUndef -> t_notes t = [JStr ""]) /\
    t_emailId t = e_id email /\
    t_id t = "task-" ++ e_id email ++ "-" ++ show_Z (env_now env (st_tick s)) /\
    st_store s' = map_set (t_id t) t (st_store s) /\
    map_get (t_id t) (st_store s') = Some t.
Proof.
  intros Hu. unfold extractTasksFromEmail. rewrite Hu.
  unfold bind, now. cbn.
  do 2 eexists. split; [reflexivity |].
  cbn. split; [reflexivity |]. split; [reflexivity |].
  split; [intros Hp; unfold js_or; rewrite Hp; reflexivity |].
  split; [reflexivity |].
  split; [intros Hc; unfold js_or; rewrite Hc; reflexivity |].
  split; [reflexivity |]. split; [reflexivity |]. split; [reflexivity |].
  apply map_get_set_same.
Qed.

(** Witness for [C6_task_construction] on message B. *)
Lemma C6_task_construction_witness :
  exists t s',
    extractTasksFromEmail Scenario.env_abc Scenario.emailB Scenario.s0 = (Ok (Some t), s') /\
    t_status t = Pending /\
    t_priority t = js_or (prop Scenario.taskB_json "priority") (JStr "medium") /\
    (prop Scenario.taskB_json "priority" = JUndef -> t_priority t = JStr "medium") /\
    t_notes t = [js_or (prop Scenario.taskB_json "context") (JStr "")] /\
    (prop Scenario.taskB_json "context" = JUndef -> t_notes t = [JStr ""]) /\
    t_emailId t = "B" /\
    t_id t = "task-" ++ "B" ++ "-" ++ show_Z (Scenario.clock 0) /\
    st_store s' = map_set (t_id t) t (st_store Scenario.s0) /\
    map_get (t_id t) (st_store s') = Some t.
Proof.
  apply (C6_task_construction Scenario.env_abc Scenario.emailB Scenario.s0
           Scenario.taskB_json).
  vm_compute. reflexivity.
Defined.

(** ** C7: extraction failures *)




(** ** C8, C9: store operations *)

Lemma addTaskNote_present (taskId note : string) (m : Store) (t : Task) :
  map_get taskId m = Some t ->
  addTaskNote taskId note m = (true, map_set taskId (push_note t note) m).
Proof. intros H. unfold addTaskNote. now rewrite H. Qed.

(** C8: [markTaskComplete] on a present identifier returns true and the
    task's status is then completed, also when it already was; on an
    absent identifier [markTaskComplete] and [addTaskNote] return false
    and leave the store as it was (both are total: they never throw). *)
Theorem C8_markComplete_addNote (m : Store) (taskId note : string) :
  (forall t, map_get taskId m = Some t ->
     fst (markTaskComplete taskId m) = true /\
     exists t', map_get taskId (snd (markTaskComplete taskId m)) = Some t' /\
                t_status t' = Completed) /\
  (map_get taskId m = None ->
     markTaskComplete taskId m = (false, m) /\ addTaskNote taskId note m = (false, m)).
Proof.
  split.
  - intros t H. unfold markTaskComplete. rewrite H. cbn. split; [reflexivity |].
    eexists. split; [apply map_get_set_same | reflexivity].
  - intros H. unfold markTaskComplete, addTaskNote. now rewrite H.
Qed.

(** Witness for [C8_markComplete_addNote]: an already completed task, and
    an absent identifier. *)
Lemma C8_markComplete_addNote_witness :
  let done := set_status (build_task Scenario.emailB Scenario.taskB_json
                            (Scenario.clock 0) (Scenario.clock 1)) Completed in
  let m := [(t_id done, done)] in
  (fst (markTaskComplete (t_id done) m) = true /\
   exists t', map_get (t_id done) (snd (markTaskComplete (t_id done) m)) = Some t' /\
              t_status t' = Completed) /\
  (markTaskComplete "task-missing" m = (false, m) /\
   addTaskNote "task-missing" "call back" m = (false, m)).
Proof.
  intros done m. split.
  - apply (proj1 (C8_markComplete_addNote m (t_id done) "call back") done).
    vm_compute. reflexivity.
  - apply (proj2 (C8_markComplete_addNote m "task-missing" "call back")).
    vm_compute. reflexivity.
Defined.

(** C9: three [addTaskNote] calls on a present task return true and leave
    its notes as the former notes followed by n1, n2, n3 in call order
    (length increased by 3, no former note altered or removed). *)
Theorem C9_notes_append_only (m : Store) (taskId n1 n2 n3 : string) (t : Task) :
  map_get taskId m = Some t ->
  let (r1, m1) := addTaskNote taskId n1 m in
  let (r2, m2) := addTaskNote taskId n2 m1 in
  let (r3, m3) := addTaskNote taskId n3 m2 in
  r1 = true /\ r2 = true /\ r3 = true /\
  exists t', map_get taskId m3 = Some t' /\
    t_notes t' = (t_notes t ++ [JStr n1; JStr n2; JStr n3])%list /\
    length (t_notes t') = length (t_notes t) + 3.
Proof.
  intros H.
  rewrite (addTaskNote_present _ _ _ _ H).
  rewrite (addTaskNote_present _ _ _ _ (map_get_set_same _ _ _)).
  rewrite (addTaskNote_present _ _ _ _ (map_get_set_same _ _ _)).
  repeat split.
  eexists. split; [apply map_get_set_same |]. cbn.
  rewrite <- !app_assoc. split; [reflexivity |].
  rewrite length_app. reflexivity.
Qed.

(** Witness for [C9_notes_append_only] on the task extracted from B. *)
Lemma C9_notes_append_only_witness :
  let t := build_task Scenario.emailB Scenario.taskB_json (Scenario.clock 0) (Scenario.clock 1) in
  let m := [(t_id t, t)] in
  let (r1, m1) := addTaskNote (t_id t) "called" m in
  let (r2, m2) := addTaskNote (t_id t) "sent draft" m1 in
  let (r3, m3) := addTaskNote (t_id t) "signed" m2 in
  r1 = true /\ r2 = true /\ r3 = true /\
  exists t', map_get (t_id t) m3 = Some t' /\
    t_notes t' = (t_notes t ++ [JStr "called"; JStr "sent draft"; JStr "signed"])%list /\
    length (t_notes t') = length (t_notes t) + 3.
Proof.
  intros t m.
  apply (C9_notes_append_only m (t_id t) "called" "sent draft" "signed" t).
  vm_compute. reflexivity.
Defined.

(** ** C10: failure of step 3 *)

Lemma extractTasksFromEmail_keeps (env : Env) (email : Email) (s : State) (k : string) :
  map_get k (st_store s) <> None ->
  map_get k (st_store (snd (extractTasksFromEmail env email s))) <> None.
Proof.
  intros H. unfold extractTasksFromEmail.
  destruct (usable_result (env_llm env email)); [| exact H].
  cbn. now apply map_get_set_keeps.
Qed.

Lemma extract_loop_keeps (env : Env) (emails : list Email) :
  forall s ts s' k, extract_loop env emails s = (Ok ts, s') ->
  map_get k (st_store s) <> None -> map_get k (st_store s') <> None.
Proof.
  induction emails as [|e rest IH]; intros s ts s' k Heq Hk.
  - cbn in Heq. injection Heq as _ <-. exact Hk.
  - cbn [extract_loop] in Heq. unfold bind at 1 in Heq.
    pose proof (extractTasksFromEmail_keeps env e s k Hk) as Hk1.
    destruct (extractTasksFromEmail env e s) as [[o|msg] s1] eqn:He; [| discriminate].
    unfold bind in Heq. destruct (extract_loop env rest s1) as [[ts1|msg] s2] eqn:Hl;
      [| discriminate].
    unfold ret in Heq. injection Heq as _ <-.
    exact (IH s1 ts1 s2 k Hl Hk1).
Qed.

(** Every task returned by the extraction loop is keyed in the store the
    loop leaves. *)
Lemma extract_loop_stored (env : Env) (emails : list Email) :
  forall s ts s', extract_loop env emails s = (Ok ts, s') ->
  forall t, In t ts -> map_get (t_id t) (st_store s') <> None.
Proof.
  induction emails as [|e rest IH]; intros s ts s' Heq t Hin.
  - cbn in Heq. injection Heq as <- _. destruct Hin.
  - cbn [extract_loop] in Heq. unfold bind at 1 in Heq.
    destruct (extractTasksFromEmail env e s) as [[o|msg] s1] eqn:He; [| discriminate].
    unfold bind in Heq. destruct (extract_loop env rest s1) as [[ts1|msg] s2] eqn:Hl;
      [| discriminate].
    unfold ret in Heq. injection Heq as <- <-.
    destruct o as [t0|].
    + destruct Hin as [<- | Hin]; [| exact (IH s1 ts1 s2 Hl t Hin)].
      apply (extract_loop_keeps env rest s1 ts1 s2 _ Hl).
      unfold extractTasksFromEmail in He.
      destruct (usable_result (env_llm env e)); [| discriminate].
      cbv beta iota zeta delta [bind now with_store] in He.
      injection He as <- <-. cbn [st_store]. now rewrite map_get_set_same.
    + exact (IH s1 ts1 s2 Hl t Hin).
Qed.

(** C10: when the [listTasks] invocation of step 3 rejects after steps 1
    and 2 succeeded, the run fails with that error and appends one log
    entry with status error and tasksExtracted = 0, whatever the number
    of tasks step 2 produced; the store is the one step 2 left, so every
    task inserted during the run stays in it (no roll-back). *)
Theorem C10_persist_failure (env : Env) (s s1 s2 : State) (c1 c2 : Ctx) (msg : string) :
  env_list_error env = Some msg ->
  fetchEmailsStep env s = (Ok c1, s1) ->
  extractTasksStep env c1 s1 = (Ok c2, s2) ->
  taskRefreshWorkflow env s =
    (Err msg,
     mkState (st_store s2)
       (st_logs s2 ++ [mkLog (env_now env (st_tick s2)) (c_emailCount c2) 0 LogError (Some msg)])%list
       (st_fetch s2) (S (st_tick s2))) /\
  (forall t, In t (c_tasks c2) -> map_get (t_id t) (st_store s2) <> None).
Proof.
  intros Hle H1 H2. split.
  - unfold taskRefreshWorkflow. unfold bind at 1. rewrite H1.
    unfold bind at 1. rewrite H2.
    unfold updateTaskListStep. rewrite Hle. reflexivity.
  - unfold extractTasksStep, tool_extractTasks, bind in H2.
    destruct (getEmails env 20 s1) as [[es|e] s1'] eqn:Hg; [| discriminate].
    destruct (extract_loop env es s1') as [[ts|e] s2'] eqn:Hl; [| discriminate].
    unfold ret in H2. injection H2 as <- <-. cbn [c_tasks].
    exact (extract_loop_stored env es s1' ts s2' Hl).
Qed.

(** Witness for [C10_persist_failure]: the run over A, B, C extracts one
    task before the [listTasks] invocation rejects. *)
Lemma C10_persist_failure_witness :
  exists c1 s1 c2 s2,
    fetchEmailsStep Scenario.env_persist_fail Scenario.s0 = (Ok c1, s1) /\
    extractTasksStep Scenario.env_persist_fail c1 s1 = (Ok c2, s2) /\
    c_taskCount c2 = 1 /\
    taskRefreshWorkflow Scenario.env_persist_fail Scenario.s0 =
      (Err "listTasks invocation failed",
       mkState (st_store s2)
         (st_logs s2 ++ [mkLog (env_now Scenario.env_persist_fail (st_tick s2))
                           (c_emailCount c2) 0 LogError (Some "listTasks invocation failed")])%list
         (st_fetch s2) (S (st_tick s2))) /\
    (forall t, In t (c_tasks c2) -> map_get (t_id t) (st_store s2) <> None).
Proof.
  destruct (fetchEmailsStep Scenario.env_persist_fail Scenario.s0) as [[c1|e] s1] eqn:H1;
    [| vm_compute in H1; discriminate H1].
  destruct (extractTasksStep Scenario.env_persist_fail c1 s1) as [[c2|e] s2] eqn:H2.
  - exists c1, s1, c2, s2. split; [reflexivity |]. split; [exact H2 |].
    split.
    + vm_compute in H1. injection H1 as <- <-. vm_compute in H2.
      injection H2 as <- <-. reflexivity.
    + apply (C10_persist_failure Scenario.env_persist_fail Scenario.s0 s1 s2 c1 c2
               "listTasks invocation failed"); [reflexivity | exact H1 | exact H2].
  - vm_compute in H1. injection H1 as <- <-. vm_compute in H2. discriminate H2.
Defined.

(** * Further properties of the code *)

(** ** Store operations *)

Lemma map_set_keys_present (k : string) (v : Task) (m : Store) :
  map_get k m <> None -> map fst (map_set k v m) = map fst m.
Proof.
  induction m as [|[k' v'] rest IH]; cbn; intros H; [congruence |].
  destruct (String.eqb k k') eqn:E; cbn; [reflexivity |].
  now rewrite (IH H).
Qed.

Lemma map_set_keys_absent (k : string) (v : Task) (m : Store) :
  map_get k m = None -> map fst (map_set k v m) = (map fst m ++ [k])%list.
Proof.
  induction m as [|[k' v'] rest IH]; cbn; intros H; [reflexivity |].
  destruct (String.eqb k k') eqn:E; [discriminate |]. cbn. now rewrite (IH H).
Qed.

Lemma map_get_in_keys (k : string) (m : Store) :
  map_get k m <> None <-> In k (map fst m).
Proof.
  induction m as [|[k' v'] rest IH]; cbn; [tauto |].
  destruct (String.eqb k k') eqn:E.
  - apply String.eqb_eq in E. subst. split; [auto | discriminate].
  - apply String.eqb_neq in E. rewrite IH. split; [auto | intros [H | H]; [congruence | exact H]].
Qed.

Lemma map_set_set (k : string) (v v' : Task) (m : Store) :
  map_set k v (map_set k v' m) = map_set k v m.
Proof.
  induction m as [|[k' w] rest IH]; cbn.
  - now rewrite String.eqb_refl.
  - destruct (String.eqb k k') eqn:E; cbn; rewrite E; [reflexivity | now rewrite IH].
Qed.

(** X1: [markTaskComplete] and [addTaskNote] never add, remove or reorder
    tasks: the store's key sequence (hence [getAllTasks]' length and
    order) is unchanged. *)
Theorem store_ops_keep_keys (m : Store) (taskId note : string) :
  map fst (snd (markTaskComplete taskId m)) = map fst m /\
  map fst (snd (addTaskNote taskId note m)) = map fst m.
Proof.
  unfold markTaskComplete, addTaskNote.
  destruct (map_get taskId m) eqn:H; cbn; [| split; reflexivity].
  split; apply map_set_keys_present; congruence.
Qed.

(** X2: the two operations touch only the task with the given id, and
    only its status ([markTaskComplete]) or its notes, by appending the
    note ([addTaskNote]). *)
Theorem store_ops_pointwise (m : Store) (taskId k note : string) :
  map_get k (snd (markTaskComplete taskId m)) =
    (if String.eqb k taskId
     then option_map (fun t => set_status t Completed) (map_get taskId m)
     else map_get k m) /\
  map_get k (snd (addTaskNote taskId note m)) =
    (if String.eqb k taskId
     then option_map (fun t => push_note t note) (map_get taskId m)
     else map_get k m).
Proof.
  unfold markTaskComplete, addTaskNote.
  destruct (String.eqb k taskId) eqn:E.
  - apply String.eqb_eq in E. subst k.
    destruct (map_get taskId m) eqn:H; cbn; rewrite ?map_get_set_same, ?H; auto.
  - apply String.eqb_neq in E.
    destruct (map_get taskId m); cbn; rewrite ?map_get_set_other by exact E; auto.
Qed.

(** X3: marking a task complete twice leaves the store as marking it
    once; the second call returns whether the id is present. *)
Theorem markTaskComplete_idempotent (m : Store) (taskId : string) :
  markTaskComplete taskId (snd (markTaskComplete taskId m)) =
    (fst (markTaskComplete taskId m), snd (markTaskComplete taskId m)).
Proof.
  unfold markTaskComplete.
  destruct (map_get taskId m) as [t|] eqn:H; cbn; [| now rewrite H].
  rewrite map_get_set_same, map_set_set. now destruct t.
Qed.

(** X4: completing a task and adding a note to it commute. *)
Theorem markComplete_addNote_commute (m : Store) (taskId note : string) :
  snd (addTaskNote taskId note (snd (markTaskComplete taskId m))) =
  snd (markTaskComplete taskId (snd (addTaskNote taskId note m))).
Proof.
  unfold markTaskComplete, addTaskNote.
  destruct (map_get taskId m) as [t|] eqn:H; cbn; [| now rewrite H].
  rewrite !map_get_set_same, !map_set_set. now destruct t.
Qed.

(** ** The [markComplete] and [addNote] actions of [emailTool] *)

(** X5: the [markComplete] action succeeds exactly when the id is given,
    non-empty and present in the store; when it fails the store is
    unchanged, and the message tells the two failures apart. *)
Theorem tool_markComplete_spec (taskId : option string) (m : Store) :
  let '((ok, msg), m') := tool_markComplete taskId m in
  (ok = true <-> exists id t, taskId = Some id /\ id <> "" /\ map_get id m = Some t) /\
  (ok = false -> m' = m /\
     msg = (if str_truthy taskId then "Task not found" else "Task ID is required")).
Proof.
  unfold tool_markComplete, str_truthy.
  destruct taskId as [id|]; cbn.
  2:{ split; [split; [discriminate | intros (? & ? & ? & _); discriminate] | auto]. }
  destruct (String.eqb id "") eqn:Hid.
  - apply String.eqb_eq in Hid. subst. split; [| auto].
    split; [discriminate | intros (? & ? & Heq & Hne & _); injection Heq as <-; contradiction].
  - apply String.eqb_neq in Hid. unfold markTaskComplete.
    destruct (map_get id m) as [t|] eqn:H; cbn.
    + split; [| discriminate]. split; [intros _; eauto | reflexivity].
    + split; [| auto]. split; [discriminate |].
      intros (id' & t & Heq & _ & H'). injection Heq as <-. congruence.
Qed.

(** Witness for [tool_markComplete_spec]: an empty id is refused. *)
Lemma tool_markComplete_spec_witness :
  tool_markComplete (Some "") [] = ((false, "Task ID is required"), []) /\
  (let '((ok, msg), m') := tool_markComplete (Some "") [] in
   (ok = true <-> exists id t, Some "" = Some id /\ id <> "" /\ map_get id [] = Some t) /\
   (ok = false -> m' = [] /\
      msg = (if str_truthy (Some "") then "Task not found" else "Task ID is required"))).
Proof. split; [reflexivity | exact (tool_markComplete_spec (Some "") [])]. Defined.

(** X6: the [addNote] action appends a note exactly when the id and the
    note are both given and non-empty and the id is present; otherwise
    the store is unchanged: an empty note is never recorded. *)
Theorem tool_addNote_spec (taskId note : option string) (m : Store) :
  let '((ok, msg), m') := tool_addNote taskId note m in
  (ok = true <-> exists id n t, taskId = Some id /\ id <> "" /\ note = Some n /\ n <> "" /\
                                map_get id m = Some t /\ m' = map_set id (push_note t n) m) /\
  (ok = false -> m' = m).
Proof.
  unfold tool_addNote.
  destruct (str_truthy taskId) as [id|] eqn:Hid;
  destruct (str_truthy note) as [n|] eqn:Hn; cbn.
  all: try (split; [split; [discriminate |] | auto];
            intros (id' & n' & t & -> & Hne & -> & Hne' & _);
            cbn in Hid, Hn;
            repeat match goal with
                   | H : (if String.eqb ?x "" then _ else _) = _ |- _ =>
                       destruct (String.eqb x "") eqn:?; [| discriminate H]
                   end;
            repeat match goal with H : String.eqb _ "" = true |- _ =>
                     apply String.eqb_eq in H end; contradiction).
  destruct taskId as [id0|]; [| discriminate]. destruct note as [n0|]; [| discriminate].
  cbn in Hid, Hn.
  destruct (String.eqb id0 "") eqn:E1; [discriminate |]. injection Hid as <-.
  destruct (String.eqb n0 "") eqn:E2; [discriminate |]. injection Hn as <-.
  apply String.eqb_neq in E1. apply String.eqb_neq in E2.
  unfold addTaskNote. destruct (map_get id0 m) as [t|] eqn:H; cbn.
  - split; [| discriminate]. split; [intros _; exists id0, n0, t; tauto | reflexivity].
  - split; [| auto]. split; [discriminate |].
    intros (? & ? & ? & Heq & _ & _ & _ & H' & _). injection Heq as <-. congruence.
Qed.

(** Witness for [tool_addNote_spec]: an empty note on a present task is
    refused. *)
Lemma tool_addNote_spec_witness :
  let t := build_task Scenario.emailB Scenario.taskB_json (Scenario.clock 0) (Scenario.clock 1) in
  let m := [(t_id t, t)] in
  tool_addNote (Some (t_id t)) (Some "") m = ((false, "Task ID and note are required"), m) /\
  (let '((ok, msg), m') := tool_addNote (Some (t_id t)) (Some "") m in
   (ok = true <-> exists id n t', Some (t_id t) = Some id /\ id <> "" /\ Some "" = Some n /\
                                  n <> "" /\ map_get id m = Some t' /\
                                  m' = map_set id (push_note t' n) m) /\
   (ok = false -> m' = m)).
Proof.
  intros t m. split; [vm_compute; reflexivity |].
  exact (tool_addNote_spec (Some (t_id t)) (Some "") m).
Defined.

(** ** Fetching and the Eligibility Filter *)

Lemma lead_info_units (c : ascii) : fst (lead_info c) = 1 \/ fst (lead_info c) = 2.
Proof.
  unfold lead_info. destruct (N_of_ascii c <? 192)%N; [auto |].
  destruct (N_of_ascii c <? 224)%N; [auto |].
  destruct (N_of_ascii c <? 240)%N; auto.
Qed.

Lemma byte_char_small (v : N) : (v < 256)%N -> N_of_ascii (byte_char v) = v.
Proof.
  intros H. unfold byte_char. change 255%N with (N.ones 8).
  rewrite N.land_ones, N.mod_small by (cbn; lia). apply N_ascii_embedding. exact H.
Qed.

Lemma land_bound (x : N) (w : nat) : (N.land x (N.ones (N.of_nat w)) < 2 ^ N.of_nat w)%N.
Proof. rewrite N.land_ones. apply N.mod_lt. apply N.pow_nonzero. discriminate. Qed.

Lemma hi_surrogate_len (c : ascii) (s : string) : utf16_len 0 (hi_surrogate c s) <= 1.
Proof.
  unfold hi_surrogate.
  destruct s as [|c1 [|c2 [|c3 s]]]; try (cbn; lia).
  pose proof (land_bound (N_of_ascii c) 3) as B0.
  pose proof (land_bound (N_of_ascii c1) 6) as B1.
  pose proof (land_bound (N_of_ascii c2) 6) as B2.
  pose proof (land_bound (N_of_ascii c3) 6) as B3.
  change (N.ones (N.of_nat 3)) with 7%N in B0.
  change (N.ones (N.of_nat 6)) with 63%N in B1, B2, B3.
  cbn in B0, B1, B2, B3.
  set (cp := (N.land (N_of_ascii c) 7 * 262144 + N.land (N_of_ascii c1) 63 * 4096
              + N.land (N_of_ascii c2) 63 * 64 + N.land (N_of_ascii c3) 63)%N).
  assert (Hcp : (cp - 65536 < 1024 * 2048)%N) by (unfold cp; lia).
  set (h := (55296 + N.shiftr (cp - 65536) 10)%N).
  assert (Hh : (N.shiftr h 12 < 16)%N).
  { unfold h. rewrite !N.shiftr_div_pow2. cbn [N.pow Pos.pow Pos.iter Pos.mul].
    apply N.Div0.div_lt_upper_bound.
    assert (((cp - 65536) / 1024 < 2048)%N) by (apply N.Div0.div_lt_upper_bound; lia).
    change (2 ^ 10)%N with 1024%N. lia. }
  cbn [utf16_len]. unfold lead_info at 1.
  rewrite byte_char_small by lia.
  replace ((224 + N.shiftr h 12) <? 192)%N with false by (symmetry; apply N.ltb_ge; lia).
  replace ((224 + N.shiftr h 12) <? 224)%N with false by (symmetry; apply N.ltb_ge; lia).
  replace ((224 + N.shiftr h 12) <? 240)%N with true by (symmetry; apply N.ltb_lt; lia).
  cbn. lia.
Qed.

Lemma utf16_prefix_len (s : string) : forall n cont, utf16_len cont (utf16_prefix n cont s) <= n.
Proof.
  induction s as [|c s IH]; intros n cont; [cbn; lia |].
  destruct cont as [|k]; [| cbn [utf16_prefix utf16_len]; apply IH].
  cbn [utf16_prefix]. pose proof (lead_info_units c) as U.
  destruct (lead_info c) as [u k] eqn:L. cbn [fst] in U.
  destruct n as [|n']; [cbn; lia |].
  destruct (Nat.eqb u 1) eqn:E1.
  - apply Nat.eqb_eq in E1. subst u. cbn [utf16_len]. rewrite L.
    specialize (IH n' k). lia.
  - apply Nat.eqb_neq in E1. destruct n' as [|n''].
    + pose proof (hi_surrogate_len c s). lia.
    + cbn [utf16_len]. rewrite L. specialize (IH n'' k). lia.
Qed.

Lemma substring0_length (s : string) (n : nat) : js_length (substring0 s n) <= n.
Proof. apply utf16_prefix_len. Qed.

Lemma collect_emails_spec (ms : list RawMsg) :
  (length (collect_emails ms) <= length ms)%nat /\
  forall e, In e (collect_emails ms) -> exists m, In m ms /\ email_of m = Some e.
Proof.
  induction ms as [|m rest [IHl IHin]]; cbn; [split; [lia | tauto] |].
  destruct (email_of m) as [e0|] eqn:E; cbn; split.
  - lia.
  - intros e [<- | H]; [exists m; auto |].
    destruct (IHin e H) as (m' & ? & ?); exists m'; auto.
  - lia.
  - intros e H. destruct (IHin e H) as (m' & ? & ?); exists m'; auto.
Qed.

Lemma string_app_assoc (a b c : string) : a ++ (b ++ c) = (a ++ b) ++ c.
Proof. induction a as [|x a IH]; cbn; [reflexivity | now rewrite IH]. Qed.

(** X7: a successful [getEmails(maxResults)] returns at most maxResults
    messages; each one comes from the listing Gmail returned, keeps the
    listed message's id, is not promotional, and its body is the first
    2000 UTF-16 code units of the decoded body, so its JS length is at
    most 2000.  The call uses Gmail once and touches neither the store,
    the logs nor the clock. *)
Theorem getEmails_output (env : Env) (n : nat) (s s' : State) (es : list Email) :
  getEmails env n s = (Ok es, s') ->
  (length es <= n)%nat /\
  st_store s' = st_store s /\ st_logs s' = st_logs s /\
  st_fetch s' = S (st_fetch s) /\ st_tick s' = st_tick s /\
  exists msgs, env_src env (st_fetch s) = Some msgs /\
  forall e, In e es -> exists m, In m msgs /\ rm_id m = e_id e /\
     isPromotionalEmail (msg_headers m) (msg_body m) = false /\
     e_body e = substring0 (msg_body m) 2000 /\ (js_length (e_body e) <= 2000)%nat.
Proof.
  unfold getEmails. intros H.
  destruct (env_src env (st_fetch s)) as [msgs|] eqn:E; [| discriminate].
  injection H as <- <-. cbn [st_store st_logs st_fetch st_tick].
  destruct (collect_emails_spec (firstn n msgs)) as [Hl Hin].
  rewrite length_firstn in Hl.
  split; [lia |]. do 4 (split; [reflexivity |]).
  exists msgs. split; [reflexivity |].
  intros e He. destruct (Hin e He) as (m & Hm & Heo).
  exists m. split.
  { rewrite <- (firstn_skipn n msgs). apply in_or_app. left. exact Hm. }
  unfold email_of in Heo. cbv zeta in Heo.
  destruct (isPromotionalEmail (msg_headers m) (msg_body m)); [discriminate |].
  injection Heo as <-. cbn [e_id e_body].
  split; [reflexivity |]. split; [reflexivity |]. split; [reflexivity |].
  apply substring0_length.
Qed.

(** Witness for [getEmails_output]: with a maximum of 2 over A, B, C, only
    B is returned (A is promotional, C is beyond the maximum). *)
Lemma getEmails_output_witness :
  exists es s', getEmails Scenario.env_abc 2 Scenario.s0 = (Ok es, s') /\
    es = [Scenario.emailB] /\ (length es <= 2)%nat.
Proof.
  exists [Scenario.emailB], (mkState [] [] 1 0).
  assert (H : getEmails Scenario.env_abc 2 Scenario.s0 =
              (Ok [Scenario.emailB], mkState [] [] 1 0))
    by (vm_compute; reflexivity).
  split; [exact H |]. split; [reflexivity |].
  exact (proj1 (getEmails_output Scenario.env_abc 2 Scenario.s0 _ _ H)).
Defined.

(** X8: the promotional test is monotone in the body: text appended to a
    promotional body never makes it eligible. *)
Theorem promotional_monotone (hs : list Header) (body extra : string) :
  isPromotionalEmail hs body = true -> isPromotionalEmail hs (body ++ extra) = true.
Proof.
  unfold isPromotionalEmail. cbv zeta. rewrite !existsb_exists.
  intros (k & Hk & Hi). exists k. split; [exact Hk |].
  rewrite (string_app_assoc _ body extra), (string_app_assoc _ (_ ++ body) extra).
  rewrite toLowerCase_app. apply includes_app_l. exact Hi.
Qed.

(** Witness for [promotional_monotone]. *)
Lemma promotional_monotone_witness :
  isPromotionalEmail [] "Big sale" = true /\
  isPromotionalEmail [] ("Big sale" ++ " ends Friday") = true.
Proof.
  assert (H : isPromotionalEmail [] "Big sale" = true) by reflexivity.
  split; [exact H | exact (promotional_monotone [] "Big sale" " ends Friday" H)].
Defined.

(** X9: at the call site [decodeEmailBody(payload?.body || payload)], a
    payload that carries a [body] object without [data] and without
    parts (as Gmail sends for multipart messages, [{ size: 0 }]) decodes
    to the empty text: the payload's [parts] are never looked at. *)
Theorem msg_body_parts_ignored (id : string) (hs : option (list Header))
    (mt d bm : option string) (bb : option MObj) (ps : option (list MObj)) :
  msg_body (mkRawMsg id (Some (mkPayload hs (mkMObj mt d (Some (mkMObj bm None bb None)) ps))))
  = "".
Proof. reflexivity. Qed.

(** ** The Content Decoder *)

Lemma dec_sound : forall (o : MObj) (skip : bool),
  dec skip o = "" \/ exists d, In d (all_data o) /\ dec skip o = base64_decode d.
Proof.
  fix IH 1. intros [mt d b ps] skip.
  cbn [dec all_data].
  destruct (if skip then None else str_truthy d) as [x|] eqn:Hd.
  - right. exists x. split; [| reflexivity]. apply in_or_app; left.
    destruct skip; [discriminate |]. unfold str_truthy in Hd.
    destruct d as [y|]; [| discriminate].
    destruct (String.eqb y ""); [discriminate |]. injection Hd as <-. left; reflexivity.
  - destruct ps as [ps|]; [| left; reflexivity].
    match goal with |- context [In _ ?L] => set (outer := L) end.
    assert (Hin : forall x, In x (flat_map all_data ps) -> In x outer).
    { intros x Hx. apply in_or_app; right; apply in_or_app; right; exact Hx. }
    clearbody outer. clear Hd.
    revert ps Hin. fix IHl 1. intros [|part rest] Hin; [left; reflexivity |].
    pose proof (IH part true) as IHp.
    assert (HinP : forall x, In x (all_data part) -> In x outer)
      by (intros x Hx; apply Hin; cbn [flat_map]; apply in_or_app; left; exact Hx).
    assert (HinR : forall x, In x (flat_map all_data rest) -> In x outer)
      by (intros x Hx; apply Hin; cbn [flat_map]; apply in_or_app; right; exact Hx).
    specialize (IHl rest HinR).
    destruct part as [pm pd pb pp].
    cbn -[dec].
    destruct (is_text_mime pm).
    + destruct pb as [b0|]; [| left; reflexivity].
      destruct (IH b0 false) as [E | (d0 & Hd0 & E)]; [left; exact E |].
      right. exists d0. split; [| exact E].
      apply HinP. cbn [all_data]. apply in_or_app; right; apply in_or_app; left; exact Hd0.
    + destruct pp as [pp|]; [| exact IHl].
      destruct (String.eqb (dec true (mkMObj pm pd pb (Some pp))) "") eqn:E; [exact IHl |].
      destruct IHp as [E' | (d0 & Hd0 & E')]; [rewrite E' in E; discriminate |].
      right. exists d0. split; [apply HinP; exact Hd0 | exact E'].
Qed.

(** X10: the decoder never produces text of its own: its result is empty
    or the Base64 decoding of one of the [data] strings of the payload
    tree. *)
Theorem decodeEmailBody_sound (body : option MObj) :
  decodeEmailBody body = "" \/
  exists o d, body = Some o /\ In d (all_data o) /\ decodeEmailBody body = base64_decode d.
Proof.
  destruct body as [o|]; cbn [decodeEmailBody]; [| left; reflexivity].
  destruct (dec_sound o false) as [E | (d & Hd & E)]; [left; exact E |].
  right. exists o, d. auto.
Qed.

(** ** The run *)

Lemma bind_app {A B} (m : M A) (k : A -> M B) (s : State) :
  bind m k s = match m s with (Ok a, s') => k a s' | (Err e, s') => (Err e, s') end.
Proof. reflexivity. Qed.

(** A property of stores kept by every [map_set] is kept by extraction. *)
Section Frame.
Variable env : Env.
Variable P : Store -> Prop.
Hypothesis HP : forall k v m, P m -> P (map_set k v m).

Lemma extractTasksFromEmail_frame (email : Email) (s : State) :
  P (st_store s) ->
  exists o s', extractTasksFromEmail env email s = (Ok o, s') /\
    (o <> None <-> yields_task env email = true) /\
    P (st_store s') /\ st_logs s' = st_logs s /\ st_fetch s' = st_fetch s.
Proof.
  intros H. unfold extractTasksFromEmail, yields_task.
  destruct (usable_result (env_llm env email)).
  - cbv beta iota zeta delta [bind now with_store]. do 2 eexists.
    split; [reflexivity |]. cbn [st_store st_logs st_fetch].
    split; [split; [reflexivity | discriminate] |].
    split; [apply HP; exact H | split; reflexivity].
  - unfold ret. do 2 eexists. split; [reflexivity |].
    split; [split; [intros C; exfalso; apply C; reflexivity | discriminate] |].
    auto.
Qed.

Lemma extract_loop_frame (emails : list Email) :
  forall s, P (st_store s) ->
  exists ts s', extract_loop env emails s = (Ok ts, s') /\
    length ts = length (filter (yields_task env) emails) /\
    P (st_store s') /\ st_logs s' = st_logs s /\ st_fetch s' = st_fetch s.
Proof.
  induction emails as [|e rest IH]; intros s H.
  - exists [], s. auto.
  - cbn [extract_loop]. unfold bind at 1.
    destruct (extractTasksFromEmail_frame e s H) as (o & s1 & He & Ho & H1 & L1 & F1).
    rewrite He.
    destruct (IH s1 H1) as (ts & s' & Hl & Hc & H2 & L2 & F2).
    unfold bind. rewrite Hl. unfold ret.
    eexists; exists s'. split; [reflexivity |].
    split; [| split; [exact H2 | split; congruence]].
    cbn [filter]. destruct o as [t|]; destruct (yields_task env e).
    + cbn. now rewrite Hc.
    + exfalso. assert (C : Some t <> None) by discriminate. apply Ho in C. discriminate C.
    + exfalso. destruct Ho as [_ Ho]. now apply Ho.
    + exact Hc.
Qed.

Lemma extractTasksStep_spec (c : Ctx) (s s2 : State) (r : Result Ctx) :
  extractTasksStep env c s = (r, s2) -> P (st_store s) ->
  P (st_store s2) /\ st_logs s2 = st_logs s /\ st_fetch s2 = S (st_fetch s) /\
  match env_src env (st_fetch s) with
  | Some m2 => exists ts, r = Ok (mkCtx (c_emails c) (c_emailCount c) ts (length ts)) /\
                 length ts = length (filter (yields_task env) (collect_emails (firstn 20 m2)))
  | None => r = Err "Failed to fetch emails from Gmail" /\ st_store s2 = st_store s
  end.
Proof.
  intros Hr H. unfold extractTasksStep, tool_extractTasks, bind, getEmails in Hr.
  destruct (env_src env (st_fetch s)) as [m2|].
  - destruct (extract_loop_frame (collect_emails (firstn 20 m2))
                (mkState (st_store s) (st_logs s) (S (st_fetch s)) (st_tick s)) H)
      as (ts & s' & Hl & Hc & H2 & L2 & F2).
    rewrite Hl in Hr. unfold ret in Hr. injection Hr as <- <-.
    split; [exact H2 |]. split; [exact L2 |]. split; [exact F2 |].
    exists ts. split; [reflexivity | exact Hc].
  - injection Hr as <- <-. cbn [st_store st_logs st_fetch]. auto.
Qed.

End Frame.

Lemma fetchEmailsStep_spec (env : Env) (s s1 : State) (r : Result Ctx) :
  fetchEmailsStep env s = (r, s1) ->
  st_store s1 = st_store s /\ st_logs s1 = st_logs s /\
  st_fetch s1 = S (st_fetch s) /\ st_tick s1 = st_tick s /\
  match env_src env (st_fetch s) with
  | Some m1 => r = Ok (mkCtx (collect_emails (firstn 20 m1))
                        (length (collect_emails (firstn 20 m1))) [] 0)
  | None => r = Err "Failed to fetch emails from Gmail"
  end.
Proof.
  unfold fetchEmailsStep, tool_getEmails, bind, getEmails.
  destruct (env_src env (st_fetch s)); intros H; injection H as <- <-; cbn; auto.
Qed.

Lemma updateTaskListStep_spec (env : Env) (c : Ctx) (s s3 : State) (r : Result Summary) :
  updateTaskListStep env c s = (r, s3) ->
  st_store s3 = st_store s /\ st_fetch s3 = st_fetch s /\
  match env_list_error env with
  | None => r = Ok (mkSummary (length (getAllTasks (st_store s))) (c_taskCount c)) /\
            st_logs s3 = (st_logs s ++ [mkLog (env_now env (st_tick s)) (c_emailCount c)
                                         (c_taskCount c) LogSuccess None])%list
  | Some msg => r = Err msg /\
            st_logs s3 = (st_logs s ++ [mkLog (env_now env (st_tick s)) (c_emailCount c)
                                         0 LogError (Some msg)])%list
  end.
Proof.
  unfold updateTaskListStep.
  destruct (env_list_error env); intros H; cbn in H; injection H as <- <-; cbn; auto.
Qed.

Lemma run_frame (env : Env) (P : Store -> Prop)
    (HP : forall k v m, P m -> P (map_set k v m)) (s : State) :
  P (st_store s) -> P (st_store (snd (taskRefreshWorkflow env s))).
Proof.
  intros H. unfold taskRefreshWorkflow. rewrite bind_app.
  destruct (fetchEmailsStep env s) as [r1 s1] eqn:H1.
  destruct (fetchEmailsStep_spec env s s1 r1 H1) as (S1 & _).
  rewrite <- S1 in H.
  destruct r1 as [c1|e]; [| exact H].
  rewrite bind_app.
  destruct (extractTasksStep env c1 s1) as [r2 s2] eqn:H2.
  destruct (extractTasksStep_spec env P HP c1 s1 s2 r2 H2 H) as (H' & _).
  destruct r2 as [c2|e]; [| exact H'].
  destruct (updateTaskListStep env c2 s2) as [r3 s3] eqn:H3.
  destruct (updateTaskListStep_spec env c2 s2 s3 r3 H3) as (S3 & _).
  cbn [snd]. rewrite S3. exact H'.
Qed.

(** X11: the outcome of a run.  If either fetch fails the run fails with
    'Failed to fetch emails from Gmail' and leaves the logs and the store
    as they were.  Otherwise Gmail was used twice and exactly one log
    entry is appended: on success, emailsChecked counts the eligible
    messages of the first fetch, tasksExtracted (also the run's newTasks)
    counts the eligible messages of the second fetch for which the model
    answer yields a task, and totalTasks is the size of the store left;
    when step 3's [listTasks] invocation rejects, the entry has status
    error and tasksExtracted 0, and the run fails with that error. *)
Theorem run_outcome (env : Env) (s : State) :
  let (r, s') := taskRefreshWorkflow env s in
  match env_src env (st_fetch s), env_src env (S (st_fetch s)) with
  | Some m1, Some m2 =>
      let checked := length (collect_emails (firstn 20 m1)) in
      let extracted := length (filter (yields_task env) (collect_emails (firstn 20 m2))) in
      st_fetch s' = S (S (st_fetch s)) /\
      match env_list_error env with
      | None =>
          r = Ok (mkSummary (length (getAllTasks (st_store s'))) extracted) /\
          exists t, st_logs s' = (st_logs s ++ [mkLog t checked extracted LogSuccess None])%list
      | Some msg =>
          r = Err msg /\
          exists t, st_logs s' = (st_logs s ++ [mkLog t checked 0 LogError (Some msg)])%list
      end
  | _, _ =>
      r = Err "Failed to fetch emails from Gmail" /\
      st_logs s' = st_logs s /\ st_store s' = st_store s
  end.
Proof.
  unfold taskRefreshWorkflow. rewrite bind_app.
  destruct (fetchEmailsStep env s) as [r1 s1] eqn:H1.
  destruct (fetchEmailsStep_spec env s s1 r1 H1) as (S1 & L1 & F1 & T1 & R1).
  destruct (env_src env (st_fetch s)) as [m1|] eqn:E1; [| subst r1; cbn; auto].
  subst r1. rewrite bind_app.
  match goal with |- context [extractTasksStep env ?c s1] =>
    destruct (extractTasksStep env c s1) as [r2 s2] eqn:H2;
    destruct (extractTasksStep_spec env (fun _ => True) (fun _ _ _ _ => I) c s1 s2 r2 H2 I)
      as (_ & L2 & F2 & R2) end.
  rewrite F1 in R2.
  destruct (env_src env (S (st_fetch s))) as [m2|] eqn:E2.
  - destruct R2 as (ts & -> & Hc).
    match goal with |- context [updateTaskListStep env ?c s2] =>
      destruct (updateTaskListStep env c s2) as [r3 s3] eqn:H3;
      destruct (updateTaskListStep_spec env c s2 s3 r3 H3) as (S3 & F3 & R3) end.
    cbn [c_taskCount c_emailCount] in R3. cbv zeta.
    split; [congruence |].
    destruct (env_list_error env) as [msg|].
    + destruct R3 as [-> L3]. split; [reflexivity |].
      eexists. rewrite L3, L2, L1. reflexivity.
    + destruct R3 as [-> L3]. rewrite S3, Hc. split; [reflexivity |].
      eexists. rewrite L3, L2, L1, Hc. reflexivity.
  - destruct R2 as [-> S2]. cbn. split; [reflexivity |]. split; congruence.
Qed.

(** X12: whatever its outcome, a run never removes or reorders tasks:
    the store's key sequence afterwards extends the one before (new
    tasks go at the end, [getAllTasks] lists the older ones first). *)
Theorem run_keys_prefix (env : Env) (s : State) :
  exists suf, map fst (st_store (snd (taskRefreshWorkflow env s))) =
              (map fst (st_store s) ++ suf)%list.
Proof.
  apply (run_frame env (fun m => exists suf, map fst m = (map fst (st_store s) ++ suf)%list)).
  - intros k v m [suf Hm].
    destruct (map_get k m) eqn:E.
    + exists suf. rewrite map_set_keys_present by congruence. exact Hm.
    + exists (suf ++ [k])%list. rewrite map_set_keys_absent by exact E.
      rewrite Hm. rewrite <- app_assoc. reflexivity.
  - exists []. symmetry. apply app_nil_r.
Qed.

(** ** Task identifiers *)

Lemma digits_aux_read (fuel : nat) : forall n acc,
  (n < 10 ^ N.of_nat fuel)%N -> read_digits (digits_aux fuel n acc) 0 = read_digits acc n.
Proof.
  induction fuel as [|f IH]; intros n acc Hn.
  - cbn in Hn. assert (n = 0%N) by lia. subst. reflexivity.
  - cbn [digits_aux].
    assert (Hm : (N.to_nat (n mod 10) < 10)%nat)
      by (rewrite N2Nat.inj_mod by lia; apply Nat.mod_upper_bound; discriminate).
    assert (Hd : (N.of_nat (nat_of_ascii (ascii_of_nat (48 + N.to_nat (n mod 10)))) - 48
                  = n mod 10)%N).
    { rewrite nat_ascii_embedding by lia. rewrite Nat2N.inj_add, N2Nat.id.
      change (N.of_nat 48) with 48%N. rewrite N.add_comm, N.add_sub. reflexivity. }
    pose proof (N.div_mod n 10 ltac:(lia)) as Hdm.
    destruct (N.eqb (n / 10) 0) eqn:Q.
    + apply N.eqb_eq in Q. cbn [read_digits]. rewrite Hd. f_equal. lia.
    + rewrite IH.
      * cbn [read_digits]. rewrite Hd. f_equal. lia.
      * rewrite Nat2N.inj_succ, N.pow_succ_r' in Hn.
        apply N.Div0.div_lt_upper_bound; lia.
Qed.

Lemma pos_size_bound (p : positive) : (Npos p < 2 ^ N.of_nat (Pos.size_nat p))%N.
Proof.
  induction p as [p IH | p IH |]; cbn [Pos.size_nat].
  - rewrite Nat2N.inj_succ, N.pow_succ_r'. change (Npos p~1) with (2 * Npos p + 1)%N. lia.
  - rewrite Nat2N.inj_succ, N.pow_succ_r'. change (Npos p~0) with (2 * Npos p)%N. lia.
  - cbn. lia.
Qed.

Lemma show_N_read (n : N) : read_digits (show_N n) 0 = n.
Proof.
  unfold show_N. rewrite digits_aux_read; [reflexivity |].
  rewrite Nat2N.inj_succ, N.pow_succ_r'.
  assert (H : (n < 2 ^ N.of_nat (N.size_nat n))%N)
    by (destruct n as [|p]; [cbn; lia | apply pos_size_bound]).
  assert (H2 : (2 ^ N.of_nat (N.size_nat n) <= 10 ^ N.of_nat (N.size_nat n))%N)
    by (apply N.pow_le_mono_l; lia).
  lia.
Qed.

Lemma digits_aux_digits (fuel : nat) : forall n acc,
  all_digits acc = true -> all_digits (digits_aux fuel n acc) = true.
Proof.
  induction fuel as [|f IH]; intros n acc H; [exact H |].
  cbn [digits_aux].
  assert (Hc : all_digits (String (ascii_of_nat (48 + N.to_nat (n mod 10))) acc) = true).
  { cbn [all_digits].
    assert (Hm : (N.to_nat (n mod 10) < 10)%nat)
      by (rewrite N2Nat.inj_mod by lia; apply Nat.mod_upper_bound; discriminate).
    rewrite nat_ascii_embedding by lia. rewrite H.
    apply andb_true_iff; split; [apply andb_true_iff; split |]; try reflexivity;
      apply Nat.leb_le; lia. }
  destruct (N.eqb (n / 10) 0); [exact Hc | apply IH; exact Hc].
Qed.

Lemma all_digits_dash (b y : string) : all_digits (b ++ String "-" y) = false.
Proof.
  induction b as [|c b IH]; cbn [append all_digits]; [reflexivity |].
  rewrite IH. apply andb_false_r.
Qed.

Lemma split_last_dash (a b x y : string) :
  all_digits x = true -> all_digits y = true ->
  a ++ String "-" x = b ++ String "-" y -> a = b /\ x = y.
Proof.
  revert b. induction a as [|c a IH]; intros [|c' b] Hx Hy H; cbn [append] in H.
  - injection H as ->. auto.
  - injection H as _ H. rewrite H, all_digits_dash in Hx. discriminate.
  - injection H as _ H. rewrite <- H, all_digits_dash in Hy. discriminate.
  - injection H as -> H. destruct (IH b Hx Hy H) as [-> ->]. auto.
Qed.

Lemma show_Z_nonneg (t : Z) : (0 <= t)%Z -> show_Z t = show_N (Z.to_N t).
Proof. intros H. unfold show_Z. destruct (Z.ltb_spec t 0); [lia | reflexivity]. Qed.

Lemma task_id_inj_nonneg (e1 e2 : Email) (t1 t2 : Z) :
  (0 <= t1)%Z -> (0 <= t2)%Z ->
  task_id e1 t1 = task_id e2 t2 -> e_id e1 = e_id e2 /\ t1 = t2.
Proof.
  intros P1 P2 H. unfold task_id in H. rewrite !show_Z_nonneg in H by assumption.
  assert (D1 : all_digits (show_N (Z.to_N t1)) = true)
    by (apply digits_aux_digits; reflexivity).
  assert (D2 : all_digits (show_N (Z.to_N t2)) = true)
    by (apply digits_aux_digits; reflexivity).
  pose proof (show_N_read (Z.to_N t1)) as R1. pose proof (show_N_read (Z.to_N t2)) as R2.
  remember (show_N (Z.to_N t1)) as x1. remember (show_N (Z.to_N t2)) as x2.
  cbn [append] in H. injection H as H.
  destruct (split_last_dash _ _ _ _ D1 D2 H) as [E X].
  split; [exact E |]. apply Z2N.inj; [exact P1 | exact P2 | congruence].
Qed.

(** X13: task identifiers [task-<message id>-<clock>] taken at
    non-negative clock readings determine both the message id and the
    clock reading: two extractions give the same id exactly when they are
    from the same message at the same millisecond (even for message ids
    that contain '-').  For negative readings this fails: id 'a' at -5
    and id 'a-' at 5 both give 'task-a--5'. *)
Theorem task_id_injective (e1 e2 : Email) (t1 t2 : Z) :
  (0 <= t1)%Z -> (0 <= t2)%Z ->
  (task_id e1 t1 = task_id e2 t2 <-> e_id e1 = e_id e2 /\ t1 = t2).
Proof.
  intros P1 P2. split.
  - apply task_id_inj_nonneg; assumption.
  - intros [E <-]. unfold task_id. rewrite E. reflexivity.
Qed.

(** Witness for [task_id_injective]: B and C at the same millisecond. *)
Lemma task_id_injective_witness :
  (task_id Scenario.emailB (Scenario.clock 0) = task_id Scenario.emailC (Scenario.clock 0) <->
   e_id Scenario.emailB = e_id Scenario.emailC /\ Scenario.clock 0 = Scenario.clock 0).
Proof. apply task_id_injective; vm_compute; discriminate. Defined.

(** ** The [extractTasks] action of [emailTool] *)

Lemma email_of_id (m : RawMsg) (e : Email) : email_of m = Some e -> e_id e = rm_id m.
Proof.
  unfold email_of. cbv zeta.
  destruct (isPromotionalEmail (msg_headers m) (msg_body m)); [discriminate |].
  intros H. injection H as <-. reflexivity.
Qed.

Lemma NoDup_map_firstn {A} (f : A -> string) (n : nat) (l : list A) :
  NoDup (map f l) -> NoDup (map f (firstn n l)).
Proof.
  revert n. induction l as [|x l IH]; intros [|n] H; cbn; [constructor .. |].
  inversion H as [| ? ? Hx Hl]; subst. constructor; [| apply IH; exact Hl].
  intros C. apply Hx. apply in_map_iff in C. destruct C as (y & Ey & Hy).
  rewrite <- Ey. apply in_map. rewrite <- (firstn_skipn n l). apply in_or_app. left. exact Hy.
Qed.

Lemma NoDup_map_filter {A} (f : A -> string) (p : A -> bool) (l : list A) :
  NoDup (map f l) -> NoDup (map f (filter p l)).
Proof.
  induction l as [|x l IH]; intros H; cbn; [constructor |].
  inversion H as [| ? ? Hx Hl]; subst.
  destruct (p x); cbn; [constructor |]; [| apply IH; exact Hl | apply IH; exact Hl].
  intros C. apply Hx. apply in_map_iff in C. destruct C as (y & Ey & Hy).
  apply filter_In in Hy. rewrite <- Ey. apply in_map. apply Hy.
Qed.

Lemma NoDup_collect (ms : list RawMsg) :
  NoDup (map rm_id ms) -> NoDup (map e_id (collect_emails ms)).
Proof.
  induction ms as [|m rest IH]; intros H; cbn; [constructor |].
  inversion H as [| ? ? Hm Hl]; subst.
  destruct (email_of m) as [e|] eqn:E; cbn; [| apply IH; exact Hl].
  constructor; [| apply IH; exact Hl].
  rewrite (email_of_id m e E). intros C. apply Hm.
  apply in_map_iff in C. destruct C as (e' & Ee & He').
  destruct (proj2 (collect_emails_spec rest) e' He') as (m' & Hm' & Eo).
  rewrite <- Ee, (email_of_id m' e' Eo). apply in_map. exact Hm'.
Qed.

Lemma NoDup_map_inj {A} (f g : A -> string) (l : list A) :
  NoDup (map g l) -> (forall x y, In x l -> In y l -> f x = f y -> g x = g y) ->
  NoDup (map f l).
Proof.
  induction l as [|x l IH]; intros H Hi; cbn; [constructor |].
  inversion H as [| ? ? Hx Hl]; subst. constructor.
  - intros C. apply in_map_iff in C. destruct C as (y & Ey & Hy).
    apply Hx. rewrite <- (Hi y x); [apply in_map; exact Hy | right; exact Hy | left; reflexivity | exact Ey].
  - apply IH; [exact Hl |]. intros a b Ha Hb. apply Hi; right; assumption.
Qed.

Lemma extractTasksFromEmail_shape (env : Env) (e : Email) (s s1 : State) (o : option Task) :
  extractTasksFromEmail env e s = (Ok o, s1) ->
  (o = None /\ s1 = s) \/
  (exists t, o = Some t /\ t_emailId t = e_id e /\
     t_id t = task_id e (env_now env (st_tick s)) /\
     st_store s1 = map_set (t_id t) t (st_store s)).
Proof.
  unfold extractTasksFromEmail.
  destruct (usable_result (env_llm env e)) as [r|].
  - cbv beta iota zeta delta [bind now with_store]. intros H. injection H as <- <-.
    right. eexists. split; [reflexivity |]. split; [reflexivity |]. split; reflexivity.
  - unfold ret. intros H. injection H as <- <-. left. auto.
Qed.

Lemma extract_loop_store (env : Env) (emails : list Email) :
  forall s ts s', extract_loop env emails s = (Ok ts, s') ->
  (forall k, ~ In k (map t_id ts) -> map_get k (st_store s') = map_get k (st_store s)) /\
  (NoDup (map t_id ts) -> forall t, In t ts -> map_get (t_id t) (st_store s') = Some t) /\
  (forall t, In t ts -> exists e i, In e emails /\ t_emailId t = e_id e /\
                                   t_id t = task_id e (env_now env i)).
Proof.
  induction emails as [|e rest IH]; intros s ts s' Heq.
  - cbn in Heq. injection Heq as <- <-. split; [auto |]. split; [intros _ t [] | intros t []].
  - cbn [extract_loop] in Heq. unfold bind at 1 in Heq.
    destruct (extractTasksFromEmail env e s) as [[o|msg] s1] eqn:He; [| discriminate].
    unfold bind in Heq. destruct (extract_loop env rest s1) as [[ts1|msg] s2] eqn:Hl;
      [| discriminate].
    unfold ret in Heq. injection Heq as <- <-.
    destruct (IH s1 ts1 s2 Hl) as (P1 & P2 & P3).
    destruct (extractTasksFromEmail_shape env e s s1 o He)
      as [[-> ->] | (t0 & -> & G0 & I0 & S0)].
    + split; [exact P1 |]. split; [exact P2 |].
      intros t Ht. destruct (P3 t Ht) as (e' & i & ? & ? & ?). exists e', i.
      split; [right |]; auto.
    + split; [| split].
      * intros k Hk. cbn [map] in Hk. rewrite P1 by (intros C; apply Hk; right; exact C).
        rewrite S0. apply map_get_set_other. intros C. apply Hk. left. congruence.
      * intros Hnd t Ht. cbn [map] in Hnd. inversion Hnd as [| ? ? Hx Hr]; subst.
        destruct Ht as [<- | Ht]; [| exact (P2 Hr t Ht)].
        rewrite (P1 _ Hx), S0. apply map_get_set_same.
      * intros t [<- | Ht].
        -- exists e, (st_tick s). split; [left |]; auto.
        -- destruct (P3 t Ht) as (e' & i & ? & ? & ?). exists e', i.
           split; [right |]; auto.
Qed.

(** X14: the [extractTasks] action of [emailTool]: it fetches once; if
    Gmail fails it throws 'Failed to fetch emails from Gmail' and leaves
    the store; otherwise it returns, in order, one task per eligible
    message (among the first maxResults) whose model answer yields a
    task, linked to that message; every task is keyed in the store and a
    key that was present before is still present; every key that is not
    the id of a returned task keeps its entry.  When the listing's message
    ids are distinct and the clock readings non-negative, every returned
    task is stored under its id.  It never writes a log. *)
Theorem tool_extractTasks_spec (env : Env) (n : nat) (s s' : State) (r : Result (list Task)) :
  tool_extractTasks env n s = (r, s') ->
  st_logs s' = st_logs s /\ st_fetch s' = S (st_fetch s) /\
  match env_src env (st_fetch s) with
  | Some msgs => exists ts, r = Ok ts /\
      map t_emailId ts = map e_id (filter (yields_task env) (collect_emails (firstn n msgs))) /\
      (forall t, In t ts -> map_get (t_id t) (st_store s') <> None) /\
      (forall k, map_get k (st_store s) <> None -> map_get k (st_store s') <> None) /\
      (forall k, ~ In k (map t_id ts) -> map_get k (st_store s') = map_get k (st_store s)) /\
      (NoDup (map rm_id msgs) -> (forall i, (0 <= env_now env i)%Z) ->
       forall t, In t ts -> map_get (t_id t) (st_store s') = Some t)
  | None => r = Err "Failed to fetch emails from Gmail" /\ st_store s' = st_store s
  end.
Proof.
  intros H. unfold tool_extractTasks, bind, getEmails in H.
  destruct (env_src env (st_fetch s)) as [msgs|].
  - set (s1 := mkState (st_store s) (st_logs s) (S (st_fetch s)) (st_tick s)) in H.
    destruct (extract_loop_ids env (collect_emails (firstn n msgs)) s1)
      as (ts & s2 & Hl & Hids).
    destruct (extract_loop_frame env (fun _ => True) (fun _ _ _ _ => I)
                (collect_emails (firstn n msgs)) s1 I)
      as (ts' & s2' & Hl' & _ & _ & L & F).
    rewrite Hl in Hl'. injection Hl' as <- <-.
    rewrite Hl in H. injection H as <- <-.
    destruct (extract_loop_store env _ _ _ _ Hl) as (P1 & P2 & P3).
    split; [exact L |]. split; [exact F |].
    exists ts. split; [reflexivity |]. split; [exact Hids |]. split; [| split; [| split]].
    + exact (extract_loop_stored env _ _ ts s2 Hl).
    + intros k Hk. exact (extract_loop_keeps env _ _ ts s2 k Hl Hk).
    + exact P1.
    + intros Hnd Hnn. apply P2.
      apply (NoDup_map_inj t_id t_emailId).
      * rewrite Hids. apply NoDup_map_filter, NoDup_collect, NoDup_map_firstn. exact Hnd.
      * intros x y Hx Hy Exy.
        destruct (P3 x Hx) as (ex & ix & _ & Gx & Ix).
        destruct (P3 y Hy) as (ey & iy & _ & Gy & Iy).
        rewrite Ix, Iy in Exy. rewrite Gx, Gy.
        exact (proj1 (task_id_inj_nonneg ex ey _ _ (Hnn ix) (Hnn iy) Exy)).
  - injection H as <- <-. cbn [st_store st_logs st_fetch]. auto.
Qed.

(** Witness for [tool_extractTasks_spec]: over A, B, C the action
    returns the one task of B, stored under its id. *)
Lemma tool_extractTasks_spec_witness :
  exists r s', tool_extractTasks Scenario.env_abc 20 Scenario.s0 = (r, s') /\
    st_fetch s' = 1%nat /\ exists ts, r = Ok ts /\ map t_emailId ts = ["B"] /\
    forall t, In t ts -> map_get (t_id t) (st_store s') = Some t.
Proof.
  destruct (tool_extractTasks Scenario.env_abc 20 Scenario.s0) as [r s'] eqn:H.
  exists r, s'. split; [reflexivity |].
  destruct (tool_extractTasks_spec Scenario.env_abc 20 Scenario.s0 s' r H) as (_ & F & R).
  split; [exact F |].
  change (env_src Scenario.env_abc (st_fetch Scenario.s0))
    with (Some [Scenario.msgA; Scenario.msgB; Scenario.msgC]) in R.
  destruct R as (ts & Hr & Hids & _ & _ & _ & Hst). exists ts. split; [exact Hr |].
  split; [rewrite Hids; vm_compute; reflexivity |].
  apply Hst.
  - cbn [map]. constructor; [| constructor; [| constructor; [| constructor]]].
    all: intros C; vm_compute in C; intuition discriminate.
  - intros i. cbn [env_now Scenario.env_abc]. unfold Scenario.clock. lia.
Defined.
